(* ===== verification/_CoqProject ===== *)
-Q . S2P
Prelude.v
Api.v
QueryKey.v
QueryState.v
Query.v
EntrySpec.v
Observer.v
Client.v
Interleave.v
Trace.v
Hooks.v
