(* ===== verification/Prelude.v ===== *)
(** * A verification development of the patient dashboard hooks

    Repository: a dental clinic front end (TypeScript, React).  The code
    under [src/] is one file, [src/src/hooks/use-patient.ts], with two hooks:

    - [usePADashboard]  calls [useQuery({queryKey: ["getPatientDashboardAppointment"],
                                        queryFn: getPatientDashboardAppointment})];
    - [useDADashboard]  calls [useQuery({queryKey: ["DADashboard"],
                                        queryFn: getPatientDashboardAppointment})].

    Neither hook has behaviour of its own: what a caller observes is what
    the query cache (TanStack Query, [@tanstack/react-query]) does with the
    options object, and what the API function [getPatientDashboardAppointment]
    (module [@/api/patient], not part of the sources) returns.  The
    development therefore models the hooks from the source line by line and
    the two collaborators from the spec and the collaborator's documented
    contract, as the environment the hooks run in, and proves the hooks'
    properties against that environment.

    ** Parts and files (in dependency order)

    - [Prelude]   this header; a state monad [ST] with its notation in
                  [st_scope]; the hint database [query] and the rewrite
                  database [query_rw] the components fill.
    - [Api]       the API collaborator: the settled outcome of the promise a
                  query function returns ([Settled]) and the imported
                  function reference [getPatientDashboardAppointment].
    - [QueryKey]  the query-key hash [hashKey] (TanStack's [hashKey], i.e.
                  [JSON.stringify] of an array of strings, with JSON string
                  escaping), its decoder [parseKey], and the round trip
                  that makes [hashKey] injective: two distinct keys never
                  share a cache entry.
    - [QueryState] the per-query state record of TanStack's [Query] class
                  ([status], [fetchStatus], [data], [error], counters) and
                  its [reducer] ([Query#dispatch]) over the actions
                  [failed], [pause], [continue], [fetch], [success],
                  [error], [invalidate]; the invariant [state_wf] and its
                  preservation by each action.
    - [Query]     a cache entry: key, hash, query function, state, observer
                  count and the in-flight retryer (TanStack's [retryer.ts]:
                  failure count, [isRetryCancelled], running, sleeping
                  before a retry, or suspended while the window is
                  unfocused); the operations [Query#fetch] (with the
                  deduplication of in-flight fetches), the settlement of
                  an attempt (resolve, undefined data, reject with or
                  without retry), the retry timer, [continue()] after the
                  focus returns, [cancelRetry] and [continueRetry].
    - [EntrySpec] the contract of an entry: an abstract labelled transition
                  system ([sstep]: calls, answers, internal steps) over
                  what an entry shows, the abstraction [abs] of a detailed
                  entry, the operations of [Query] as a labelled relation
                  [qstep], and their refinement of the contract
                  ([qstar_refines], a forward simulation).
    - [Observer]  the result a hook returns ([createResult] of
                  [QueryObserver]): [status], [data], [error], [isLoading],
                  [isFetching], [isPaused], ... derived from the query
                  state; the members of the result union type.
    - [Client]    the query cache ([QueryCache] as a [gmap] from query hash
                  to entry): [build], observer mount with fetch-on-mount,
                  unmount, garbage collection, [invalidateQueries], the
                  window regaining the focus ([onFocus]); the hook entry
                  point [useQuery] in the [ST] monad; the events of the
                  environment as a step function [exec] and a step
                  relation; reachability, the cache invariants and the
                  driver of a fetch in flight.
    - [Interleave] the events about one entry as local updates of the cache
                  at its hash ([exec_at], a [partial_alter]); updates at
                  different hashes commute, so interleavings of two entries'
                  event streams run alike ([run_interleaving]).
    - [Trace]     the cache's runs seen through the entry contract: every
                  event moves each entry by a run of [qstep] consuming
                  exactly the responses addressed to it, so every entry's
                  history is a run of the contract ([run_history]).
    - [Hooks]     the source: the options objects, [usePADashboard],
                  [useDADashboard], and the theorems about them.

    ** What the theorems show (groups; claim ids C1..C24 of the manifest)

    - registration (C1, C2): each hook registers exactly one cache entry
      under the hash of its literal key, with
      [getPatientDashboardAppointment] itself as query function, and
      calls it exactly once;
    - independence (C3, C14): events on one hook's entry, and invalidating
      one hook's key, leave the other hook's entry unchanged;
    - pass-through (C4, C5, C6): a fulfilled response [v] is shown as
      [data = v] unchanged; [undefined] becomes TanStack's own error; a
      rejection [e] is shown unchanged, but only after the default three
      retries (a spec gap: the options object does not set [retry]);
    - deduplication (C7): a mount while the fetch is in flight joins it;
    - invariant and bounds (C8, C9): every reachable cache keeps each entry
      consistent (status/data/error, a retryer exactly while not idle, a
      suspended retryer only when paused), failure counts at most
      [defaultRetry + 1];
    - round trip (C10, [QueryKey]): [parseKey (hashKey k) = Some k], hence
      [hashKey] is injective;
    - termination and liveness (C19, C22): whatever the network answers,
      a fetch ends within [2 * defaultRetry + 2] driving events, neither
      fetching nor paused, with a result that is [success] or [error],
      never left [pending], after at most [1 + defaultRetry = 4] calls;
    - lifecycle (C11, C12, C13, C15): unmounting during a retry delay
      cancels the retries, a remount resumes them; a mounted entry is not
      collected even once idle, an unobserved idle one is, with its data;
      invalidation refetches while showing the old data;
    - types (C16): every result is a member of TanStack's result union;
    - focus (C17, C18): regaining the focus refetches both mounted hooks
      (two calls for the same data); a retry due while unfocused pauses
      until the focus returns;
    - refinement and provenance (C20, C21): along any run from the empty
      cache, each hook's entry follows the abstract entry contract,
      received exactly the responses addressed to it and called the API
      once per call step; so each hook shows only data and errors the API
      returned for its own key;
    - interleaving (C23): the two hooks' components render and settle
      independently, and any interleaving of their entries' events runs
      the cache as one stream after the other;
    - error path (C24): a refetch rejected four times shows the last API
      error beside the old data, as a refetch error (not a loading error).

    ** Bounds and fuel

    [parseElems] takes the length of its input as fuel, enough since every
    element takes at least one character ([joinElems_length]).
    [settleEvents] takes [2 * defaultRetry + 2 = 8] as fuel, enough since
    [retryMeasure] never exceeds it and each driving event lowers it
    ([settle_step]); [callsLeft] is the potential that bounds the calls.

    ** Not modelled, and why

    - The online manager ([networkMode: 'online']: a fetch started while
      offline is paused, reconnecting refetches): neither the sources nor
      the spec give the hooks a network state or set [networkMode], so the
      network is taken as online; the focus is the one environment input
      that pauses a fetch, and it is modelled.
    - The per-observer state of [QueryObserver] ([isFetchedAfterMount], the
      optimistic result of the first render, [notifyOnChangeProps]): the
      hooks only return the result, and what a component sees after a
      render is the observer's current result of its entry; observers are
      counted per entry, which is all the cache's mount, unmount, focus and
      garbage-collection decisions read.

    ** Modelling choices

    - Values and errors of the API are the section types [A] and [E]; a
      JavaScript [undefined] resolution is [Fulfilled None].
    - The network is always online (TanStack's [onlineManager]).  The
      window may lose the focus: a retry timer carries the value of
      [focusManager.isFocused()] when it fires, and the focus returning is
      an event; the [paused] fetch status is reached by a retry that falls
      due while unfocused.  Time is abstract: a timer (retry delay,
      garbage collection) is an event the environment may fire;
      [staleTime] is the default 0, so data is always stale and every
      mount and focus refetches.
    - Calls to the query function are counted per entry ([fnCalls], a ghost
      counter of the model, not a TanStack field).
    - Not modelled: React rendering and re-render scheduling, cancellation
      through [AbortSignal] (the query function takes no argument and never
      reads the signal), structural sharing of data, [select],
      [placeholderData], reconnect refetching and the offline behaviour of
      the online manager, per-observer state (an observer is counted, not
      stored).
*)

From stdpp Require Export base gmap strings list options.
From Stdlib Require Export Lia.

Set Default Goal Selector "!".

(** ** A state monad of our own

    The hooks run against the query client, a piece of shared mutable
    state; [ST S A] threads it explicitly and returns (result, new state),
    as a hook call returns its result and leaves the cache changed. *)

Definition ST (S A : Type) : Type := S -> A * S.

Definition st_ret {S A} (a : A) : ST S A := fun s => (a, s).

Definition st_bind {S A B} (m : ST S A) (k : A -> ST S B) : ST S B :=
  fun s => let '(a, s') := m s in k a s'.

Definition st_modify {S} (f : S -> S) : ST S unit := fun s => (tt, f s).

Declare Scope st_scope.
Delimit Scope st_scope with st.
Notation "x <-- m ;; k" := (st_bind m (fun x => k))
  (at level 100, m at next level, right associativity) : st_scope.
Notation "m ;;; k" := (st_bind m (fun _ => k))
  (at level 100, right associativity) : st_scope.

Create HintDb query discriminated.
Create Rewrite HintDb query_rw.

(** [query] collects the invariant-preservation lemmas of the components;
    [query_rw] the computation equations that [autorewrite] uses. *)
#[export] Hint Rewrite @lookup_insert_eq @lookup_delete_eq : query_rw.
