(* ===== verification/Api.v ===== *)
(** * The API collaborator

    [src/src/hooks/use-patient.ts] imports [getPatientDashboardAppointment]
    from [@/api/patient], a module of the repository that is not among the
    sources.  The spec gives its contract: a function of no argument
    returning a promise that settles with the patient's dashboard
    appointment data or with an error.  This file holds that contract: the
    settled outcome of such a promise and the function as a reference (the
    hooks pass the function itself, not a wrapper, to [useQuery]). *)

From S2P Require Import Prelude.

(** The settlement of a promise returned by a query function.  JavaScript
    lets a promise resolve with [undefined]: that is [Fulfilled None]. *)
Inductive Settled (A E : Type) : Type :=
| Fulfilled (v : option A)
| Rejected (e : E).
Arguments Fulfilled {A E} v.
Arguments Rejected {A E} e.

(** A function value passed as [queryFn], compared by identity as
    JavaScript compares function objects: a function exported by a module
    and imported by name, or an arrow function written at a place of a
    source file (a wrapper such as [() => getPatientDashboardAppointment()]
    is a new object, distinct from the function it calls). *)
Inductive QueryFunction : Type :=
| ImportedFn (fromModule : string) (exportName : string)
| ArrowFn (file : string) (line : nat).

#[export] Instance QueryFunction_eq_dec : EqDecision QueryFunction.
Proof. solve_decision. Defined.

(** [import { getPatientDashboardAppointment } from "@/api/patient"]. *)
Definition getPatientDashboardAppointment : QueryFunction :=
  ImportedFn "@/api/patient" "getPatientDashboardAppointment".
