(* ===== verification/QueryKey.v ===== *)
(** * Query keys and their hash

    A query key in the sources is an array of string literals
    ([queryKey: ["getPatientDashboardAppointment"]]).  TanStack Query files
    a query in its cache under [hashKey(queryKey)], which for an array of
    strings is [JSON.stringify(queryKey)]: the elements as JSON strings,
    separated by commas, in brackets.  This file models that hash with
    JSON's string escaping ([QuoteJSONString]: the short escapes [\b \t \n
    \f \r], backslash before a double quote or a backslash, [\u00XX] for
    the other control characters, every other
    character as it is), a decoder [parseKey], and the round trip
    [parseKey (hashKey k) = Some k], from which [hashKey] is injective.

    Strings are [String.string], i.e. code units 0..255; JavaScript strings
    are UTF-16, and the characters above 255 (escaped only when they are
    lone surrogates) are outside the model. *)

From S2P Require Import Prelude.
From Stdlib Require Import Ascii String.

Local Open Scope string_scope.
Local Open Scope char_scope.

(** The key of a query: an array of strings. *)
Definition QueryKey : Type := list string.

(** The double quote character (written by its code: a string literal
    would have to double it). *)
Definition dquote : ascii := ascii_of_nat 34%nat.

Definition backslash : ascii := "\".

(** Lower-case hexadecimal digit of [n < 16]. *)
Definition hexDigit (n : nat) : ascii :=
  match n with
  | 0%nat => "0" | 1%nat => "1" | 2%nat => "2" | 3%nat => "3" | 4%nat => "4" | 5%nat => "5"
  | 6%nat => "6" | 7%nat => "7" | 8%nat => "8" | 9%nat => "9" | 10%nat => "a" | 11%nat => "b"
  | 12%nat => "c" | 13%nat => "d" | 14%nat => "e" | _ => "f"
  end.

(** One character of a JSON string literal, as [QuoteJSONString] writes it. *)
Definition escapeChar (c : ascii) : string :=
  let n := nat_of_ascii c in
  match n with
  | 8%nat => String backslash (String "b" EmptyString)
  | 9%nat => String backslash (String "t" EmptyString)
  | 10%nat => String backslash (String "n" EmptyString)
  | 12%nat => String backslash (String "f" EmptyString)
  | 13%nat => String backslash (String "r" EmptyString)
  | 34%nat => String backslash (String dquote EmptyString)
  | 92%nat => String backslash (String backslash EmptyString)
  | _ =>
      if (n <? 32)%nat then
        String backslash (String "u" (String "0" (String "0"
          (String (hexDigit (n / 16)%nat) (String (hexDigit (n mod 16)%nat) EmptyString)))))
      else String c EmptyString
  end.

Fixpoint escapeBody (s : string) : string :=
  match s with
  | EmptyString => EmptyString
  | String c s' => escapeChar c ++ escapeBody s'
  end.

(** [JSON.stringify] of a string: the escaped body between double quotes. *)
Definition quoteJSON (s : string) : string :=
  String dquote (escapeBody s ++ String dquote EmptyString).

Fixpoint joinElems (ks : list string) : string :=
  match ks with
  | [] => EmptyString
  | [k] => quoteJSON k
  | k :: ks' => quoteJSON k ++ String "," (joinElems ks')
  end.

(** [hashKey(queryKey)] for an array of strings: [JSON.stringify]. *)
Definition hashKey (k : QueryKey) : string :=
  String "[" (joinElems k ++ String "]" EmptyString).

(** [partialMatchKey(queryKey, filterKey)] for arrays of strings: every
    element of the filter equals the element of the key at its index, i.e.
    the filter is a prefix of the key. *)
Fixpoint partialMatchKey (a b : QueryKey) : bool :=
  match b, a with
  | [], _ => true
  | y :: ys, x :: xs => String.eqb x y && partialMatchKey xs ys
  | _ :: _, [] => false
  end.

(** ** The decoder *)

Definition hexVal (c : ascii) : option nat :=
  match c with
  | "0" => Some 0%nat | "1" => Some 1%nat | "2" => Some 2%nat | "3" => Some 3%nat
  | "4" => Some 4%nat | "5" => Some 5%nat | "6" => Some 6%nat | "7" => Some 7%nat
  | "8" => Some 8%nat | "9" => Some 9%nat | "a" => Some 10%nat | "b" => Some 11%nat
  | "c" => Some 12%nat | "d" => Some 13%nat | "e" => Some 14%nat | "f" => Some 15%nat
  | _ => None
  end.

(** The character of a [\uXXXX] escape, when it is a code unit below 256. *)
Definition hex4 (h1 h2 h3 h4 : ascii) : option ascii :=
  match hexVal h1, hexVal h2, hexVal h3, hexVal h4 with
  | Some a, Some b, Some c, Some d =>
      let n := (a * 4096 + b * 256 + c * 16 + d)%nat in
      if (n <? 256)%nat then Some (ascii_of_nat n) else None
  | _, _, _, _ => None
  end.

(** The character a one-letter escape [\e] stands for. *)
Definition unescapeLetter (e : ascii) : option ascii :=
  match nat_of_ascii e with
  | 98%nat => Some (ascii_of_nat 8%nat)
  | 116%nat => Some (ascii_of_nat 9%nat)
  | 110%nat => Some (ascii_of_nat 10%nat)
  | 102%nat => Some (ascii_of_nat 12%nat)
  | 114%nat => Some (ascii_of_nat 13%nat)
  | 34%nat => Some dquote
  | 92%nat => Some backslash
  | 47%nat => Some "/"
  | _ => None
  end.

Definition consChar (c : ascii) (r : option (string * string)) : option (string * string) :=
  match r with
  | Some (body, rest) => Some (String c body, rest)
  | None => None
  end.

(** Reads the body of a JSON string literal up to its closing quote;
    returns the decoded body and what follows the quote. *)
Fixpoint unquoteBody (s : string) : option (string * string) :=
  match s with
  | EmptyString => None
  | String c s1 =>
      if Ascii.eqb c dquote then Some (EmptyString, s1)
      else if Ascii.eqb c backslash then
        match s1 with
        | EmptyString => None
        | String e s2 =>
            if Ascii.eqb e "u" then
              match s2 with
              | String h1 (String h2 (String h3 (String h4 s3))) =>
                  match hex4 h1 h2 h3 h4 with
                  | Some c' => consChar c' (unquoteBody s3)
                  | None => None
                  end
              | _ => None
              end
            else match unescapeLetter e with
                 | Some c' => consChar c' (unquoteBody s2)
                 | None => None
                 end
        end
      else consChar c (unquoteBody s1)
  end.

(** The elements of a JSON array of strings, after its [[]; [fuel] bounds
    the number of elements. *)
Fixpoint parseElems (fuel : nat) (s : string) : option (list string) :=
  match fuel with
  | 0%nat => None
  | S fuel' =>
      match s with
      | String q s1 =>
          if Ascii.eqb q dquote then
            match unquoteBody s1 with
            | Some (k, String sep rest) =>
                if Ascii.eqb sep "," then
                  match parseElems fuel' rest with
                  | Some ks => Some (k :: ks)
                  | None => None
                  end
                else if Ascii.eqb sep "]" then
                  match rest with EmptyString => Some [k] | _ => None end
                else None
            | _ => None
            end
          else None
      | EmptyString => None
      end
  end.

Definition parseKey (s : string) : option QueryKey :=
  match s with
  | String b s1 =>
      if Ascii.eqb b "[" then
        match s1 with
        | String "]" EmptyString => Some []
        | _ => parseElems (String.length s1) s1
        end
      else None
  | EmptyString => None
  end.

(** ** Lemmas on strings *)

(** stdpp declares [String.append] [simpl never]; its two equations: *)
Lemma string_app_nil (s : string) : EmptyString ++ s = s.
Proof. reflexivity. Qed.

Lemma string_app_cons (c : ascii) (s1 s2 : string) : String c s1 ++ s2 = String c (s1 ++ s2).
Proof. reflexivity. Qed.

#[export] Hint Rewrite string_app_nil string_app_cons : query_rw.

Lemma string_app_assoc (s1 s2 s3 : string) : (s1 ++ s2) ++ s3 = s1 ++ (s2 ++ s3).
Proof. induction s1 as [|c s1 IH]; autorewrite with query_rw; [done | by rewrite IH]. Qed.

Lemma string_length_app (s1 s2 : string) :
  String.length (s1 ++ s2) = String.length s1 + String.length s2.
Proof. induction s1 as [|c s1 IH]; autorewrite with query_rw; simpl; [done | by rewrite IH]. Qed.

(** ** The round trip *)

(** Decoding one escaped character gives the character back, whatever
    follows it: checked on each of the 256 code units. *)
Lemma unquote_escapeChar (c : ascii) (t : string) :
  unquoteBody (escapeChar c ++ t) = consChar c (unquoteBody t).
Proof. destruct c as [[] [] [] [] [] [] [] []]; reflexivity. Qed.

Lemma unquote_escapeBody (s t : string) :
  unquoteBody (escapeBody s ++ String dquote t) = Some (s, t).
Proof.
  induction s as [|c s IH]; [done |].
  cbn [escapeBody]. by rewrite string_app_assoc, unquote_escapeChar, IH.
Qed.

Lemma joinElems_cons2 (x y : string) (ys : list string) :
  joinElems (x :: y :: ys) = quoteJSON x ++ String "," (joinElems (y :: ys)).
Proof. reflexivity. Qed.

(** One step of the element parser: a quoted element, then what follows it. *)
Lemma parseElems_quote (f : nat) (x rest : string) :
  parseElems (S f) (quoteJSON x ++ rest) =
  match rest with
  | String sep rest' =>
      if Ascii.eqb sep "," then
        match parseElems f rest' with Some ks => Some (x :: ks) | None => None end
      else if Ascii.eqb sep "]" then
        match rest' with EmptyString => Some [x] | _ => None end
      else None
  | EmptyString => None
  end.
Proof.
  unfold quoteJSON. rewrite string_app_cons, string_app_assoc, string_app_cons, string_app_nil.
  cbn [parseElems]. rewrite Ascii.eqb_refl, unquote_escapeBody. reflexivity.
Qed.

Lemma parseElems_joinElems (xs : list string) (x : string) (fuel : nat) :
  List.length xs < fuel ->
  parseElems fuel (joinElems (x :: xs) ++ String "]" EmptyString) = Some (x :: xs).
Proof.
  revert x fuel. induction xs as [|y ys IH]; intros x [|fuel] Hf; simpl in Hf; try lia.
  - by rewrite (parseElems_quote fuel x).
  - rewrite joinElems_cons2, string_app_assoc, string_app_cons, parseElems_quote.
    rewrite IH; [done | lia].
Qed.

Lemma quoteJSON_length (x : string) : 2 <= String.length (quoteJSON x).
Proof. unfold quoteJSON. simpl. rewrite string_length_app. simpl. lia. Qed.

Lemma joinElems_length (xs : list string) (x : string) :
  S (List.length xs) <= String.length (joinElems (x :: xs)).
Proof.
  revert x. induction xs as [|y ys IH]; intros x.
  - pose proof (quoteJSON_length x). simpl. lia.
  - rewrite joinElems_cons2, string_length_app. cbn [String.length Datatypes.length].
    pose proof (quoteJSON_length x). specialize (IH y). lia.
Qed.

(** [C10] The query-key hash has a left inverse: [parseKey] decodes every
    hash [hashKey k] back to the key [k]. *)
Theorem parseKey_hashKey (k : QueryKey) : parseKey (hashKey k) = Some k.
Proof.
  destruct k as [|x xs]; [done |].
  assert (Hlen := joinElems_length xs x).
  assert (Hq : exists t, joinElems (x :: xs) ++ String "]" EmptyString = String dquote t).
  { destruct xs; cbn [joinElems]; unfold quoteJSON;
      rewrite ?string_app_assoc, string_app_cons; by eexists. }
  destruct Hq as [t Ht].
  unfold hashKey. rewrite Ht.
  transitivity (parseElems (String.length (String dquote t)) (String dquote t)); [done |].
  rewrite <- Ht. apply parseElems_joinElems. rewrite string_length_app. cbn [String.length]. lia.
Qed.

(** Two keys with the same hash are the same key: TanStack's cache, indexed
    by the hash, gives distinct keys distinct entries. *)
Corollary hashKey_inj (k1 k2 : QueryKey) : hashKey k1 = hashKey k2 -> k1 = k2.
Proof.
  intros H. apply (f_equal parseKey) in H.
  rewrite !parseKey_hashKey in H. by injection H.
Qed.
