(* ===== verification/QueryState.v ===== *)
(** * The state of one query and its reducer

    TanStack Query keeps, for each cached query, a [QueryState] ([query.ts]:
    [data], [dataUpdateCount], [error], [errorUpdateCount],
    [fetchFailureCount], [fetchFailureReason], [fetchStatus],
    [isInvalidated], [status]) and changes it only through
    [Query#dispatch], whose [reducer] handles the actions [failed],
    [pause], [continue], [fetch], [success], [error] and [invalidate].
    Timestamps ([dataUpdatedAt], [errorUpdatedAt]) and [fetchMeta] are not
    modelled: nothing the hooks expose depends on them once [staleTime] is
    0.  The [setState] action (manual cache writes) and the revert of a
    cancelled fetch are not reached by the hooks.

    The invariant [state_wf] ties [status] to [data] and [error]; every
    action preserves it ([reducer_wf]). *)

From S2P Require Import Prelude Api.

(** [status: 'pending' | 'error' | 'success'] *)
Inductive QueryStatus : Type := Pending | Error | Success.

(** [fetchStatus: 'fetching' | 'paused' | 'idle'] *)
Inductive FetchStatus : Type := Fetching | Paused | Idle.

#[export] Instance QueryStatus_eq_dec : EqDecision QueryStatus.
Proof. solve_decision. Defined.
#[export] Instance FetchStatus_eq_dec : EqDecision FetchStatus.
Proof. solve_decision. Defined.

(** The errors a query can hold: the rejection value of the query
    function, or the error TanStack raises itself when the query function
    resolves with [undefined] ([new Error(`${queryHash} data is undefined`)]). *)
Inductive QueryError (E : Type) : Type :=
| ApiError (e : E)
| UndefinedData (queryHash : string).
Arguments ApiError {E} e.
Arguments UndefinedData {E} queryHash.

Section QueryState.
  Context {A E : Type}.

Record QueryState : Type := mkQueryState {
    data : option A;
    dataUpdateCount : nat;
    error : option (QueryError E);
    errorUpdateCount : nat;
    fetchFailureCount : nat;
    fetchFailureReason : option (QueryError E);
    fetchStatus : FetchStatus;
    isInvalidated : bool;
    status : QueryStatus
  }.

  (** The actions of [Query#dispatch]. *)
Inductive Action : Type :=
  | AFailed (failureCount : nat) (err : QueryError E)
  | APause
  | AContinue
  | AFetch
  | ASuccess (d : A)
  | AError (err : QueryError E)
  | AInvalidate.

  (** [getDefaultState(options)] with no [initialData]. *)
Definition getDefaultState : QueryState :=
    {| data := None; dataUpdateCount := 0; error := None; errorUpdateCount := 0;
       fetchFailureCount := 0; fetchFailureReason := None; fetchStatus := Idle;
       isInvalidated := false; status := Pending |}.

  (** The [reducer] of [Query#dispatch].  [canFetch] is
      [canFetch(options.networkMode)]: whether the network lets a fetch
      run now ([fetchState] sets [fetching] or [paused] from it). *)
Definition reducer (canFetch : bool) (action : Action) (s : QueryState) : QueryState :=
    match action with
    | AFailed n err =>
        {| data := data s; dataUpdateCount := dataUpdateCount s; error := error s;
           errorUpdateCount := errorUpdateCount s;
           fetchFailureCount := n; fetchFailureReason := Some err;
           fetchStatus := fetchStatus s; isInvalidated := isInvalidated s;
           status := status s |}
    | APause =>
        {| data := data s; dataUpdateCount := dataUpdateCount s; error := error s;
           errorUpdateCount := errorUpdateCount s;
           fetchFailureCount := fetchFailureCount s;
           fetchFailureReason := fetchFailureReason s;
           fetchStatus := Paused; isInvalidated := isInvalidated s; status := status s |}
    | AContinue =>
        {| data := data s; dataUpdateCount := dataUpdateCount s; error := error s;
           errorUpdateCount := errorUpdateCount s;
           fetchFailureCount := fetchFailureCount s;
           fetchFailureReason := fetchFailureReason s;
           fetchStatus := Fetching; isInvalidated := isInvalidated s; status := status s |}
    | AFetch =>
        (* ...state, ...fetchState(state.data, options) *)
        {| data := data s; dataUpdateCount := dataUpdateCount s;
           error := match data s with None => None | Some _ => error s end;
           errorUpdateCount := errorUpdateCount s;
           fetchFailureCount := 0; fetchFailureReason := None;
           fetchStatus := if canFetch then Fetching else Paused;
           isInvalidated := isInvalidated s;
           status := match data s with None => Pending | Some _ => status s end |}
    | ASuccess d =>
        {| data := Some d; dataUpdateCount := S (dataUpdateCount s); error := None;
           errorUpdateCount := errorUpdateCount s;
           fetchFailureCount := 0; fetchFailureReason := None;
           fetchStatus := Idle; isInvalidated := false; status := Success |}
    | AError err =>
        {| data := data s; dataUpdateCount := dataUpdateCount s; error := Some err;
           errorUpdateCount := S (errorUpdateCount s);
           fetchFailureCount := S (fetchFailureCount s); fetchFailureReason := Some err;
           fetchStatus := Idle; isInvalidated := isInvalidated s; status := Error |}
    | AInvalidate =>
        {| data := data s; dataUpdateCount := dataUpdateCount s; error := error s;
           errorUpdateCount := errorUpdateCount s;
           fetchFailureCount := fetchFailureCount s;
           fetchFailureReason := fetchFailureReason s;
           fetchStatus := fetchStatus s; isInvalidated := true; status := status s |}
    end.

  (** The consistency of a query state: [pending] exactly when there is
      neither data nor error, [success] with data and no error, [error]
      with an error; data is present exactly when it was written at least
      once. *)
Record state_wf (s : QueryState) : Prop := {
    wf_pending : status s = Pending -> data s = None /\ error s = None;
    wf_success : status s = Success -> is_Some (data s) /\ error s = None;
    wf_error : status s = Error -> is_Some (error s);
    wf_data_count : data s = None <-> dataUpdateCount s = 0
  }.

Lemma getDefaultState_wf : state_wf getDefaultState.
  Proof. split; done. Qed.

  (** Every action of [Query#dispatch] preserves the consistency of
      the query state. *)
Theorem reducer_wf (canFetch : bool) (a : Action) (s : QueryState) :
    state_wf s -> state_wf (reducer canFetch a s).
  Proof.
    intros [Hp Hs He Hd].
    destruct a; split; simpl; try done.
    (* the [fetch] action: a query without data goes back to [pending] *)
    all: destruct (data s) eqn:Hds; naive_solver.
  Qed.

End QueryState.

Arguments QueryState : clear implicits.
Arguments Action : clear implicits.

#[export] Hint Resolve reducer_wf getDefaultState_wf : query.
