(* ===== verification/Query.v ===== *)
(** * One cache entry: the [Query] class and its retryer

    A TanStack [Query] ([query.ts]) holds its key, its hash, its options
    (here: the query function), its [QueryState], its observers and the
    retryer ([retryer.ts]) of the fetch in flight.  This file models the
    operations the hooks reach:

    - [Query.fetch]: start a fetch, or, when one is in flight, join it
      ([continueRetry] and return the same promise: the deduplication), or
      with [cancelRefetch] and data present, cancel it silently and start
      a new one;
    - the settlement of an attempt ([onResponse]): resolution with data
      (action [success]), resolution with [undefined] (TanStack turns it
      into an error), rejection: retried while [failureCount < retry] and
      the retry is not cancelled (action [failed], then a sleep), otherwise
      surfaced (action [error]);
    - the end of the retry delay ([onRetryTimer]), given whether the
      window has the focus: a new attempt ([runAttempt]) or the last error
      when the retry was cancelled meanwhile ([rejectWith]); unfocused, the
      retryer pauses (action [pause], phase [Suspended]);
    - [continueFetch] ([retryer.continue()] once the focus is back): a
      suspended retryer resumes (action [continue]), then runs or gives up;
    - [addObserver] / [removeObserver] (the last observer leaving cancels
      further retries: [cancelRetry]), [setOptions], [invalidate].

    The per-entry invariant [query_wf] holds of a new entry and is kept by
    every operation. *)

From S2P Require Import Prelude Api QueryKey QueryState.

(** The default of the [retry] option in a browser ([isServer ? 0 : 3]);
    the hooks' options object does not set [retry]. *)
Definition defaultRetry : nat := 3.

Section Retryer.
  Context {E : Type}.

  (** Between attempts the retryer sleeps ([sleep(delay)]) remembering the
      last error; when the delay ends with the window unfocused
      ([canContinue()] false) it pauses ([pause()]) until a [continue()];
      otherwise an attempt (a call of the query function) is running. *)
Inductive RetryPhase : Type :=
  | Running
  | Sleeping (lastError : E)
  | Suspended (lastError : E).

Record Retryer : Type := mkRetryer {
    failureCount : nat;
    isRetryCancelled : bool;
    phase : RetryPhase
  }.

Definition cancelRetry (r : Retryer) : Retryer :=
    mkRetryer (failureCount r) true (phase r).

Definition continueRetry (r : Retryer) : Retryer :=
    mkRetryer (failureCount r) false (phase r).
End Retryer.

Arguments RetryPhase : clear implicits.
Arguments Retryer : clear implicits.

Module Query.
Section Query.
  Context {A E : Type}.

Record t : Type := mk {
    queryKey : QueryKey;
    queryHash : string;
    queryFn : QueryFunction;
    state : QueryState A E;
    observers : nat;
    retryer : option (Retryer E);
    fnCalls : nat  (** ghost: calls of [queryFn] so far *)
  }.

Definition with_state (q : t) (s : QueryState A E) : t :=
    mk (queryKey q) (queryHash q) (queryFn q) s (observers q) (retryer q) (fnCalls q).

Definition with_retryer (q : t) (r : option (Retryer E)) : t :=
    mk (queryKey q) (queryHash q) (queryFn q) (state q) (observers q) r (fnCalls q).

  (** [new Query({ queryKey, queryHash, options })]. *)
Definition create (key : QueryKey) (hash : string) (fn : QueryFunction) : t :=
    mk key hash fn getDefaultState 0 None 0.

  (** [#dispatch(action)], with the network online. *)
Definition dispatch (a : Action A E) (q : t) : t :=
    with_state q (reducer true a (state q)).

  (** The tail of [fetch]: dispatch [fetch], create the retryer and run the
      first attempt (one call of [queryFn]).  The source dispatches when
      [fetchStatus === 'idle' || state.fetchMeta !== fetchOptions?.meta];
      [fetchMeta] is [null] (the default state, and [action.meta ?? null]
      after every [fetch]) while the observer's [fetchOptions] carry no
      [meta], so the second test always holds and [fetch] is dispatched on
      every start, also on a restart with [cancelRefetch]. *)
Definition startFetch (q : t) : t :=
    let q1 := dispatch AFetch q in
    mk (queryKey q1) (queryHash q1) (queryFn q1) (state q1) (observers q1)
       (Some (mkRetryer 0 false Running)) (S (fnCalls q1)).

  (** [fetch(options, { cancelRefetch })]. *)
Definition fetch (cancelRefetch : bool) (q : t) : t :=
    if decide (fetchStatus (state q) = Idle) then startFetch q
    else if bool_decide (is_Some (data (state q))) && cancelRefetch then
      startFetch q (* this.cancel({ silent: true }), then a new fetch *)
    else match retryer q with
         | Some r => with_retryer q (Some (continueRetry r)) (* return this.#retryer.promise *)
         | None => startFetch q
         end.

  (** The retryer gives up with its last error: [reject(error)], whose
      [onError] dispatches [error] and drops the retryer. *)
Definition rejectWith (e : E) (q : t) : t :=
    with_retryer (dispatch (AError (ApiError e)) q) None.

  (** The settlement of the running attempt. *)
Definition onResponse (res : Settled A E) (q : t) : option t :=
    match retryer q with
    | Some r =>
        match phase r with
        | Running =>
            Some match res with
            | Fulfilled (Some d) => with_retryer (dispatch (ASuccess d) q) None
            | Fulfilled None =>
                with_retryer (dispatch (AError (UndefinedData (queryHash q))) q) None
            | Rejected e =>
                if isRetryCancelled r || negb (failureCount r <? defaultRetry) then
                  rejectWith e q
                else
                  with_retryer (dispatch (AFailed (S (failureCount r)) (ApiError e)) q)
                    (Some (mkRetryer (S (failureCount r)) (isRetryCancelled r) (Sleeping e)))
            end
        | _ => None
        end
    | None => None
    end.

  (** The retryer runs a new attempt ([run()]): one more call of
      [queryFn], a retryer no longer cancelled. *)
Definition runAttempt (r : Retryer E) (q : t) : t :=
    mk (queryKey q) (queryHash q) (queryFn q) (state q) (observers q)
       (Some (mkRetryer (failureCount r) false Running)) (S (fnCalls q)).

  (** The end of the retry delay, with [focused] the value of
      [focusManager.isFocused()] at that moment:
      [sleep(delay).then(() => canContinue() ? undefined : pause())
                   .then(() => isRetryCancelled ? reject(error) : run())].
      When unfocused the retryer pauses ([onPause] dispatches [pause]). *)
Definition onRetryTimer (focused : bool) (q : t) : option t :=
    match retryer q with
    | Some r =>
        match phase r with
        | Sleeping e =>
            if focused then
              Some (if isRetryCancelled r then rejectWith e q else runAttempt r q)
            else
              Some (with_retryer (dispatch APause q)
                      (Some (mkRetryer (failureCount r) (isRetryCancelled r) (Suspended e))))
        | _ => None
        end
    | None => None
    end.

  (** [retryer.continue()] once the window has the focus: a paused
      retryer resumes ([onContinue] dispatches [continue]), then gives up
      if its retry was cancelled meanwhile and otherwise runs the next
      attempt; any other retryer is left as it is. *)
Definition continueFetch (q : t) : t :=
    match retryer q with
    | Some r =>
        match phase r with
        | Suspended e =>
            let q1 := dispatch AContinue q in
            if isRetryCancelled r then rejectWith e q1 else runAttempt r q1
        | _ => q
        end
    | None => q
    end.

  (** [query.setOptions(options)]: the observer's options replace the
      entry's (here: its query function). *)
Definition setOptions (fn : QueryFunction) (q : t) : t :=
    mk (queryKey q) (queryHash q) fn (state q) (observers q) (retryer q) (fnCalls q).

Definition addObserver (q : t) : t :=
    mk (queryKey q) (queryHash q) (queryFn q) (state q) (S (observers q)) (retryer q) (fnCalls q).

  (** [removeObserver]: the last observer leaving stops further retries
      (the query function never reads the abort signal). *)
Definition removeObserver (q : t) : t :=
    let n := pred (observers q) in
    mk (queryKey q) (queryHash q) (queryFn q) (state q) n
       (if decide (n = 0) then cancelRetry <$> retryer q else retryer q) (fnCalls q).

Definition invalidate (q : t) : t :=
    if isInvalidated (state q) then q else dispatch AInvalidate q.

  (** ** The invariant of a cache entry

      Its hash is the hash of its key; its state is consistent; a retryer
      exists exactly while it is not idle; the failure counts are bounded
      by the retry limit (one more for the count the [error] action
      leaves); a waiting retryer's last error is the state's
      [fetchFailureReason]; a paused retryer's entry is [paused].  (A
      running attempt may be [paused]: a fetch restarted with
      [cancelRefetch] while paused dispatches no [fetch] action.) *)
Record query_wf (q : t) : Prop := {
    wf_hash : queryHash q = hashKey (queryKey q);
    wf_state : state_wf (state q);
    wf_retryer : retryer q = None <-> fetchStatus (state q) = Idle;
    wf_count_fetching :
      fetchStatus (state q) <> Idle -> fetchFailureCount (state q) <= defaultRetry;
    wf_count : fetchFailureCount (state q) <= S defaultRetry;
    wf_retryer_count : forall r, retryer q = Some r -> failureCount r <= defaultRetry;
    wf_waiting : forall r e, retryer q = Some r -> (phase r = Sleeping e \/ phase r = Suspended e) ->
      fetchFailureReason (state q) = Some (ApiError e) /\
      fetchFailureCount (state q) = failureCount r;
    wf_paused : forall r e, retryer q = Some r -> phase r = Suspended e ->
      fetchStatus (state q) = Paused
  }.

  (** While a retryer exists the entry is not idle. *)
Lemma query_wf_retryer_active (q : t) (r : Retryer E) :
    query_wf q -> retryer q = Some r -> fetchStatus (state q) <> Idle.
  Proof. intros Hwf Hq Hi. apply (wf_retryer _ Hwf) in Hi. congruence. Qed.

Lemma create_wf (key : QueryKey) (fn : QueryFunction) :
    query_wf (create key (hashKey key) fn).
  Proof. split; cbn; try done; lia. Qed.

  (** The goals about a freshly created running retryer. *)
Ltac fresh_retryer :=
    match goal with
    | |- forall r, Some _ = Some r -> _ => intros ? [= <-]; cbn; lia
    | |- forall r e, Some _ = Some r -> phase r = _ \/ phase r = _ -> _ =>
        intros ? ? [= <-] [? | ?]; discriminate
    | |- forall r e, Some _ = Some r -> phase r = _ -> _ =>
        intros ? ? [= <-] ?; discriminate
    end.

Lemma startFetch_wf (q : t) : query_wf q -> query_wf (startFetch q).
  Proof.
    intros Hwf. unfold startFetch.
    split; cbn; try done; try lia; try fresh_retryer.
    - apply (wf_hash _ Hwf).
    - exact (reducer_wf true AFetch _ (wf_state _ Hwf)).
  Qed.

  (** An operation that keeps key, hash and state, and changes the retryer
      only in its cancellation flag, keeps the invariant. *)
Lemma query_wf_frame (q q' : t) (f : Retryer E -> Retryer E) :
    (forall r, failureCount (f r) = failureCount r /\ phase (f r) = phase r) ->
    queryKey q' = queryKey q -> queryHash q' = queryHash q -> state q' = state q ->
    retryer q' = f <$> retryer q ->
    query_wf q -> query_wf q'.
  Proof.
    intros Hf Hk Hh Hs Hr [Hwh Hws Hwr Hwc Hwb Hwrc Hwsl Hwp].
    split; rewrite ?Hk, ?Hh, ?Hs, ?Hr; try done.
    - rewrite <- Hwr. by destruct (retryer q).
    - intros r' Hr'. destruct (retryer q) as [r|] eqn:Hq; [| done].
      injection Hr' as <-. rewrite (proj1 (Hf r)). by apply Hwrc.
    - intros r' e Hr' Hph. destruct (retryer q) as [r|] eqn:Hq; [| done].
      injection Hr' as <-. destruct (Hf r) as [Hc Hp]. rewrite Hp in Hph.
      rewrite Hc. by apply (Hwsl r e).
    - intros r' e Hr' Hph. destruct (retryer q) as [r|] eqn:Hq; [| done].
      injection Hr' as <-. rewrite (proj2 (Hf r)) in Hph. by apply (Hwp r e).
  Qed.

  (** The side conditions of [query_wf_frame]. *)
Ltac frame_side :=
    first [ done
          | intros ?; split; done
          | match goal with |- _ = _ <$> retryer ?q => cbn; by destruct (retryer q) end ].

Lemma addObserver_wf (q : t) : query_wf q -> query_wf (addObserver q).
  Proof. intros Hwf. apply (query_wf_frame q _ id); frame_side. Qed.

Lemma setOptions_wf (fn : QueryFunction) (q : t) : query_wf q -> query_wf (setOptions fn q).
  Proof. intros Hwf. apply (query_wf_frame q _ id); frame_side. Qed.

Lemma removeObserver_wf (q : t) : query_wf q -> query_wf (removeObserver q).
  Proof.
    unfold removeObserver. case_decide.
    - apply (query_wf_frame q _ cancelRetry); [by auto | done ..].
    - apply (query_wf_frame q _ id); [by auto | done .. | by destruct (retryer q)].
  Qed.

Lemma fetch_wf (cancelRefetch : bool) (q : t) : query_wf q -> query_wf (fetch cancelRefetch q).
  Proof.
    intros Hwf. unfold fetch.
    case_decide; [by apply startFetch_wf |].
    destruct (bool_decide _ && cancelRefetch); [by apply startFetch_wf |].
    destruct (retryer q) as [r|] eqn:Hr; [| by apply startFetch_wf].
    apply (query_wf_frame q _ continueRetry); try frame_side. by rewrite Hr.
  Qed.

Lemma invalidate_wf (q : t) : query_wf q -> query_wf (invalidate q).
  Proof.
    intros Hwf. unfold invalidate. destruct (isInvalidated (state q)); [done |].
    destruct Hwf as [Hwh Hws Hwr Hwc Hwb Hwrc Hwsl Hwp].
    split; cbn; try done.
    exact (reducer_wf true AInvalidate _ Hws).
  Qed.

  (** Settling the fetch in flight with the [success] or [error] action and
      dropping the retryer keeps the invariant. *)
Lemma settle_success_wf (q : t) (d : A) :
    query_wf q -> query_wf (with_retryer (dispatch (ASuccess d) q) None).
  Proof. intros Hwf. split; cbn; try done; try lia. apply (wf_hash _ Hwf). Qed.

Lemma settle_error_wf (q : t) (err : QueryError E) (r : Retryer E) :
    query_wf q -> retryer q = Some r ->
    query_wf (with_retryer (dispatch (AError err) q) None).
  Proof.
    intros Hwf Hr. pose proof (query_wf_retryer_active q r Hwf Hr) as Hf.
    split; cbn; try done.
    - apply (wf_hash _ Hwf).
    - exact (reducer_wf true (AError err) _ (wf_state _ Hwf)).
    - pose proof (wf_count_fetching _ Hwf Hf). lia.
  Qed.

  (** A new attempt of a waiting retryer keeps the invariant. *)
Lemma runAttempt_wf (q : t) (r : Retryer E) :
    query_wf q -> retryer q = Some r -> query_wf (runAttempt r q).
  Proof.
    intros Hwf Hr. pose proof (query_wf_retryer_active q r Hwf Hr) as Hf.
    split; cbn; try fresh_retryer.
    - apply (wf_hash _ Hwf).
    - apply (wf_state _ Hwf).
    - split; [done | by intros ?].
    - apply (wf_count_fetching _ Hwf).
    - apply (wf_count _ Hwf).
    - intros ? [= <-]. cbn. by apply (wf_retryer_count _ Hwf).
  Qed.

  (** A suspended retryer that resumes ([continue] dispatched) is, for the
      invariant, a retryer whose delay has just ended. *)
Lemma resume_wf (q : t) (r : Retryer E) (e : E) :
    query_wf q -> retryer q = Some r -> phase r = Suspended e ->
    query_wf (with_retryer (dispatch AContinue q)
                (Some (mkRetryer (failureCount r) (isRetryCancelled r) (Sleeping e)))).
  Proof.
    intros Hwf Hr Hph. pose proof (query_wf_retryer_active q r Hwf Hr) as Hf.
    split; cbn; try done.
    - apply (wf_hash _ Hwf).
    - exact (reducer_wf true AContinue _ (wf_state _ Hwf)).
    - intros _. by apply (wf_count_fetching _ Hwf).
    - apply (wf_count _ Hwf).
    - intros ? [= <-]. cbn. by apply (wf_retryer_count _ Hwf).
    - intros ? e' [= <-] [[= <-] | ?]; [| discriminate]. apply (wf_waiting _ Hwf r e Hr). by right.
    - intros ? ? [= <-] ?. discriminate.
  Qed.

Lemma continueFetch_wf (q : t) : query_wf q -> query_wf (continueFetch q).
  Proof.
    intros Hwf. unfold continueFetch.
    destruct (retryer q) as [r|] eqn:Hr; [| done].
    destruct (phase r) as [| |e] eqn:Hph; try done.
    pose proof (resume_wf q r e Hwf Hr Hph) as Hw.
    destruct (isRetryCancelled r).
    - exact (settle_error_wf _ (ApiError e) _ Hw eq_refl).
    - exact (runAttempt_wf _ _ Hw eq_refl).
  Qed.

Lemma onResponse_wf (res : Settled A E) (q q' : t) :
    query_wf q -> onResponse res q = Some q' -> query_wf q'.
  Proof.
    intros Hwf. unfold onResponse.
    destruct (retryer q) as [r|] eqn:Hr; [| done].
    destruct (phase r) as [| e0 | e0] eqn:Hph; [| done | done].
    intros [= <-]. destruct res as [[d|]|e].
    - by apply settle_success_wf.
    - by apply (settle_error_wf q _ r).
    - destruct (isRetryCancelled r || negb (failureCount r <? defaultRetry)) eqn:Hretry.
      + by apply (settle_error_wf q _ r).
      + apply orb_false_iff in Hretry as [_ Hlt]. apply negb_false_iff, Nat.ltb_lt in Hlt.
        pose proof (query_wf_retryer_active q r Hwf Hr) as Hf.
        split; cbn; try done; try lia.
        * apply (wf_hash _ Hwf).
        * exact (reducer_wf true (AFailed _ _) _ (wf_state _ Hwf)).
        * intros ? [= <-]. cbn. lia.
        * intros ? e' [= <-] [[= ->] | ?]; [done | discriminate].
        * intros ? ? [= <-] ?. discriminate.
  Qed.

Lemma onRetryTimer_wf (focused : bool) (q q' : t) :
    query_wf q -> onRetryTimer focused q = Some q' -> query_wf q'.
  Proof.
    intros Hwf. unfold onRetryTimer.
    destruct (retryer q) as [r|] eqn:Hr; [| done].
    destruct (phase r) as [| e | e] eqn:Hph; [done | | done].
    destruct focused; intros [= <-].
    - destruct (isRetryCancelled r); [by apply (settle_error_wf q _ r) | by apply runAttempt_wf].
    - pose proof (query_wf_retryer_active q r Hwf Hr) as Hf.
      split; cbn; try done.
      + apply (wf_hash _ Hwf).
      + exact (reducer_wf true APause _ (wf_state _ Hwf)).
      + intros _. by apply (wf_count_fetching _ Hwf).
      + apply (wf_count _ Hwf).
      + intros ? [= <-]. cbn. by apply (wf_retryer_count _ Hwf).
      + intros ? e' [= <-] [? | [= <-]]; [discriminate |].
        apply (wf_waiting _ Hwf r e Hr). by left.
  Qed.

  (** The settling operations keep the identity of the entry. *)
Lemma onResponse_ids (res : Settled A E) (q q' : t) :
    onResponse res q = Some q' ->
    queryKey q' = queryKey q /\ queryHash q' = queryHash q /\ queryFn q' = queryFn q.
  Proof. unfold onResponse. repeat case_match; intros; simplify_eq; done. Qed.

Lemma onRetryTimer_ids (focused : bool) (q q' : t) :
    onRetryTimer focused q = Some q' ->
    queryKey q' = queryKey q /\ queryHash q' = queryHash q /\ queryFn q' = queryFn q.
  Proof. unfold onRetryTimer. repeat case_match; intros; simplify_eq; done. Qed.

Lemma continueFetch_ids (q : t) :
    queryKey (continueFetch q) = queryKey q /\ queryHash (continueFetch q) = queryHash q /\
    queryFn (continueFetch q) = queryFn q.
  Proof. unfold continueFetch. by repeat case_match. Qed.

End Query.
Arguments t : clear implicits.
End Query.
