(* ===== verification/EntrySpec.v ===== *)
(** * The contract of a cache entry, and its refinement

    What a TanStack query entry promises its observers, stated as a small
    labelled transition system [sstep] over [spec]: the data and error it
    shows and the fetch in flight, seen as a number of failed attempts
    and, between attempts, the last error.  The labels are what the
    outside world sees: a call of the query function ([LCall]), the
    settled answer of a call ([LAnswer]), and internal steps ([LTau]).

    The detailed entry of [Query] (state record, reducer, retryer with
    its phases and cancellation flag, observer count) refines it: the
    abstraction [abs] maps an entry to its [spec], the operations of
    [Query] form the labelled relation [qstep] (a call being a step that
    increments the call counter), and [qstep_sim] shows that every
    [qstep] of an entry satisfying [query_wf] is an [sstep] of its
    abstraction with the same label; [qstar_refines] lifts it to runs.
    Properties proved once on [sstep], such as [sstep_from] (the data and
    the API errors an entry shows are answers it received), then hold of
    the detailed entry. *)

From S2P Require Import Prelude Api QueryKey QueryState Query.

Module EntrySpec.
Section EntrySpec.
  Context {A E : Type}.

  (** The fetch in flight: none, an attempt running after [failures]
      failed ones, or waiting to retry after [failures] failures, the
      last with [lastError]. *)
Inductive Fetch : Type :=
  | NoFetch
  | Attempting (failures : nat)
  | Waiting (failures : nat) (lastError : E).

Record spec : Type := mkSpec {
    sData : option A;
    sError : option (QueryError E);
    sFetch : Fetch
  }.

Inductive Label : Type :=
  | LTau
  | LCall
  | LAnswer (res : Settled A E).

Definition labelCalls (l : Label) : nat :=
    match l with LCall => 1 | _ => 0 end.

  (** The answers a sequence of labels receives. *)
Definition answersOf (ls : list Label) : list (Settled A E) :=
    omap (fun l => match l with LAnswer res => Some res | _ => None end) ls.

  (** A new attempt from scratch: the error is cleared when there is no
      data to show beside it. *)
Definition startSpec (s : spec) : spec :=
    mkSpec (sData s) (match sData s with None => None | Some _ => sError s end) (Attempting 0).

  (** A new entry: no data, no error, no fetch. *)
Definition specInit : spec := mkSpec None None NoFetch.

  (** The contract, for the entry of hash [h]:
      - a fetch starts when none is in flight, or restarts when there is
        data to show meanwhile, with a call;
      - a running attempt's answer settles it: data [v] shown with no
        error, [undefined] shown as [UndefinedData h], a rejection either
        retried (fewer than [defaultRetry] failures so far) or shown;
      - a waiting retry either calls again or gives up, showing its last
        error;
      - internal steps change nothing visible. *)
Inductive sstep (h : string) : Label -> spec -> spec -> Prop :=
  | s_tau s : sstep h LTau s s
  | s_start s : sFetch s = NoFetch \/ is_Some (sData s) -> sstep h LCall s (startSpec s)
  | s_resolve s k v : sFetch s = Attempting k ->
      sstep h (LAnswer (Fulfilled (Some v))) s (mkSpec (Some v) None NoFetch)
  | s_undefined s k : sFetch s = Attempting k ->
      sstep h (LAnswer (Fulfilled None)) s (mkSpec (sData s) (Some (UndefinedData h)) NoFetch)
  | s_retry s k e : sFetch s = Attempting k -> k < defaultRetry ->
      sstep h (LAnswer (Rejected e)) s (mkSpec (sData s) (sError s) (Waiting (S k) e))
  | s_fail s k e : sFetch s = Attempting k ->
      sstep h (LAnswer (Rejected e)) s (mkSpec (sData s) (Some (ApiError e)) NoFetch)
  | s_rerun s k e : sFetch s = Waiting k e ->
      sstep h LCall s (mkSpec (sData s) (sError s) (Attempting k))
  | s_give_up s k e : sFetch s = Waiting k e ->
      sstep h LTau s (mkSpec (sData s) (Some (ApiError e)) NoFetch).

Inductive sstar (h : string) : list Label -> spec -> spec -> Prop :=
  | sstar_refl s : sstar h [] s s
  | sstar_step l ls s1 s2 s3 : sstep h l s1 s2 -> sstar h ls s2 s3 -> sstar h (l :: ls) s1 s3.

  (** ** The abstraction of a detailed entry *)

Definition absFetch (r : option (Retryer E)) : Fetch :=
    match r with
    | None => NoFetch
    | Some r =>
        match phase r with
        | Running => Attempting (failureCount r)
        | Sleeping e | Suspended e => Waiting (failureCount r) e
        end
    end.

Definition abs (q : Query.t A E) : spec :=
    mkSpec (data (Query.state q)) (error (Query.state q)) (absFetch (Query.retryer q)).

  (** ** The operations of an entry as a labelled relation

      A step is a call when it increments the call counter [fnCalls]. *)
Definition callLabel (q q' : Query.t A E) : Label :=
    if Query.fnCalls q' =? Query.fnCalls q then LTau else LCall.

Inductive qstep : Label -> Query.t A E -> Query.t A E -> Prop :=
  | q_fetch b q : qstep (callLabel q (Query.fetch b q)) q (Query.fetch b q)
  | q_respond res q q' : Query.onResponse res q = Some q' -> qstep (LAnswer res) q q'
  | q_timer f q q' : Query.onRetryTimer f q = Some q' -> qstep (callLabel q q') q q'
  | q_continue q : qstep (callLabel q (Query.continueFetch q)) q (Query.continueFetch q)
  | q_observe q : qstep LTau q (Query.addObserver q)
  | q_unobserve q : qstep LTau q (Query.removeObserver q)
  | q_options fn q : qstep LTau q (Query.setOptions fn q)
  | q_invalidate q : qstep LTau q (Query.invalidate q).

Inductive qstar : list Label -> Query.t A E -> Query.t A E -> Prop :=
  | qstar_refl q : qstar [] q q
  | qstar_step l ls q1 q2 q3 : qstep l q1 q2 -> qstar ls q2 q3 -> qstar (l :: ls) q1 q3.

  (** What an entry shows has come from the answers [ans]: its data, its
      API error, and the error a waiting retry would give up with. *)
Definition spec_from (ans : list (Settled A E)) (s : spec) : Prop :=
    (forall v, sData s = Some v -> Fulfilled (Some v) ∈ ans) /\
    (forall e, sError s = Some (ApiError e) -> Rejected e ∈ ans) /\
    (forall k e, sFetch s = Waiting k e -> Rejected e ∈ ans).


  (** ** Each operation refines the contract *)

Lemma callLabel_same (q q' : Query.t A E) :
    Query.fnCalls q' = Query.fnCalls q -> callLabel q q' = LTau.
  Proof. intros H. unfold callLabel. rewrite H. by rewrite Nat.eqb_refl. Qed.

Lemma callLabel_succ (q q' : Query.t A E) :
    Query.fnCalls q' = S (Query.fnCalls q) -> callLabel q q' = LCall.
  Proof. intros H. unfold callLabel. rewrite H. destruct (Nat.eqb_spec (S (Query.fnCalls q)) (Query.fnCalls q)); [lia | done]. Qed.

  (** A step that shows nothing new and makes no call is an internal step
      of the contract. *)
Lemma tau_refines (h : string) (q q' : Query.t A E) :
    data (Query.state q') = data (Query.state q) -> error (Query.state q') = error (Query.state q) ->
    absFetch (Query.retryer q') = absFetch (Query.retryer q) ->
    Query.fnCalls q' = Query.fnCalls q ->
    sstep h (callLabel q q') (abs q) (abs q') /\
    Query.fnCalls q' = Query.fnCalls q + labelCalls (callLabel q q').
  Proof.
    intros Hd He Hr Hc. rewrite callLabel_same by done. simpl. split; [| lia].
    unfold abs. rewrite Hd, He, Hr. apply s_tau.
  Qed.

  (** Starting a fetch is a start of the contract. *)
Lemma startFetch_abs (q : Query.t A E) :
    abs (Query.startFetch q) = startSpec (abs q).
  Proof. unfold Query.startFetch, abs, startSpec. cbn. by destruct (data (Query.state q)). Qed.

Lemma fetch_refines (b : bool) (q : Query.t A E) :
    Query.query_wf q ->
    sstep (Query.queryHash q) (callLabel q (Query.fetch b q)) (abs q) (abs (Query.fetch b q)) /\
    Query.fnCalls (Query.fetch b q) = Query.fnCalls q + labelCalls (callLabel q (Query.fetch b q)).
  Proof.
    intros Hwf. pose proof (Query.wf_retryer _ Hwf) as Hr.
    assert (Hcall : Query.fnCalls (Query.startFetch q) = S (Query.fnCalls q)).
    { done. }
    unfold Query.fetch. case_decide as Hi.
    - rewrite callLabel_succ, startFetch_abs by done. split; [| rewrite Hcall; simpl; lia].
      apply s_start. left. unfold abs. cbn. by rewrite (proj2 Hr Hi).
    - destruct (bool_decide (is_Some _) && b) eqn:Hb.
      + apply andb_true_iff in Hb as [Hd _]. apply bool_decide_eq_true in Hd.
        rewrite callLabel_succ, startFetch_abs by done. split; [| rewrite Hcall; simpl; lia].
        by apply s_start; right.
      + destruct (Query.retryer q) as [r|] eqn:Hq; [| by destruct Hi; apply Hr].
        apply tau_refines; [done | done | simpl; by rewrite Hq | done].
  Qed.

Lemma onResponse_refines (res : Settled A E) (q q' : Query.t A E) :
    Query.query_wf q -> Query.onResponse res q = Some q' ->
    sstep (Query.queryHash q) (LAnswer res) (abs q) (abs q') /\ Query.fnCalls q' = Query.fnCalls q.
  Proof.
    intros Hwf. pose proof (Query.wf_retryer_count _ Hwf) as Hc. unfold Query.onResponse.
    destruct (Query.retryer q) as [r|] eqn:Hr; [| done].
    destruct (phase r) as [| |] eqn:Hph; [| done | done].
    assert (Hf : sFetch (abs q) = Attempting (failureCount r)) by (unfold abs, absFetch; cbn; by rewrite Hr, Hph).
    intros [= <-]. split; [| by destruct res as [[]|]; [| | case_match]].
    destruct res as [[d|]|e].
    - exact (s_resolve _ _ _ d Hf).
    - exact (s_undefined _ _ _ Hf).
    - destruct (isRetryCancelled r || negb (failureCount r <? defaultRetry)) eqn:Hb.
      + exact (s_fail _ _ _ e Hf).
      + apply orb_false_iff in Hb as [_ Hb]. apply negb_false_iff, Nat.ltb_lt in Hb.
        exact (s_retry _ _ _ e Hf Hb).
  Qed.

  (** A waiting retry that runs or gives up. *)
Lemma wake_refines (h : string) (q q1 : Query.t A E) (r : Retryer E) (e : E) :
    sFetch (abs q) = Waiting (failureCount r) e ->
    data (Query.state q1) = data (Query.state q) -> error (Query.state q1) = error (Query.state q) ->
    Query.fnCalls q1 = Query.fnCalls q ->
    let q' := if isRetryCancelled r then Query.rejectWith e q1 else Query.runAttempt r q1 in
    sstep h (callLabel q q') (abs q) (abs q') /\ Query.fnCalls q' = Query.fnCalls q + labelCalls (callLabel q q').
  Proof.
    intros Hf Hd He Hc q'. subst q'. destruct (isRetryCancelled r).
    - rewrite callLabel_same by done. split; [| simpl; lia].
      replace (abs (Query.rejectWith e q1)) with (mkSpec (sData (abs q)) (Some (ApiError e)) NoFetch);
        [exact (s_give_up _ _ _ _ Hf) | unfold abs; cbn; by rewrite Hd].
    - rewrite callLabel_succ by (simpl; lia). split; [| simpl; lia].
      replace (abs (Query.runAttempt r q1)) with (mkSpec (sData (abs q)) (sError (abs q)) (Attempting (failureCount r)));
        [exact (s_rerun _ _ _ _ Hf) | unfold abs; cbn; by rewrite Hd, He].
  Qed.

Lemma onRetryTimer_refines (f : bool) (q q' : Query.t A E) :
    Query.onRetryTimer f q = Some q' ->
    sstep (Query.queryHash q) (callLabel q q') (abs q) (abs q') /\
    Query.fnCalls q' = Query.fnCalls q + labelCalls (callLabel q q').
  Proof.
    unfold Query.onRetryTimer.
    destruct (Query.retryer q) as [r|] eqn:Hr; [| done].
    destruct (phase r) as [|e|] eqn:Hph; [done | | done].
    assert (Hf : sFetch (abs q) = Waiting (failureCount r) e) by (unfold abs, absFetch; cbn; by rewrite Hr, Hph).
    destruct f; intros [= <-].
    - by apply wake_refines.
    - apply tau_refines; [done | done | unfold absFetch; simpl; by rewrite Hr, Hph | done].
  Qed.

Lemma continueFetch_refines (q : Query.t A E) :
    sstep (Query.queryHash q) (callLabel q (Query.continueFetch q)) (abs q) (abs (Query.continueFetch q)) /\
    Query.fnCalls (Query.continueFetch q) = Query.fnCalls q + labelCalls (callLabel q (Query.continueFetch q)).
  Proof.
    unfold Query.continueFetch.
    destruct (Query.retryer q) as [r|] eqn:Hr; [| by apply tau_refines].
    destruct (phase r) as [| |e] eqn:Hph; try by apply tau_refines.
    apply wake_refines; try done. unfold abs, absFetch; cbn. by rewrite Hr, Hph.
  Qed.

  (** The operations keep the hash of the entry. *)
Lemma qstep_hash (l : Label) (q q' : Query.t A E) :
    qstep l q q' -> Query.queryHash q' = Query.queryHash q.
  Proof.
    destruct 1 as [b q|res q q' Hq|f q q' Hq|q|q|q|fn q|q].
    - unfold Query.fetch, Query.startFetch. by repeat (case_decide || case_match).
    - exact (proj1 (proj2 (Query.onResponse_ids _ _ _ Hq))).
    - exact (proj1 (proj2 (Query.onRetryTimer_ids _ _ _ Hq))).
    - exact (proj1 (proj2 (Query.continueFetch_ids q))).
    - done.
    - done.
    - done.
    - unfold Query.invalidate. by case_match.
  Qed.

Lemma qstep_wf (l : Label) (q q' : Query.t A E) :
    Query.query_wf q -> qstep l q q' -> Query.query_wf q'.
  Proof.
    intros Hwf. destruct 1 as [b q|res q q' Hq|f q q' Hq|q|q|q|fn q|q].
    - by apply Query.fetch_wf.
    - by apply (Query.onResponse_wf res q).
    - by apply (Query.onRetryTimer_wf f q).
    - by apply Query.continueFetch_wf.
    - by apply Query.addObserver_wf.
    - by apply Query.removeObserver_wf.
    - by apply Query.setOptions_wf.
    - by apply Query.invalidate_wf.
  Qed.

  (** One step of an entry satisfying the invariant is a step of the
      contract, with as many calls as [LCall] labels. *)
Lemma qstep_sim (l : Label) (q q' : Query.t A E) :
    Query.query_wf q -> qstep l q q' ->
    sstep (Query.queryHash q) l (abs q) (abs q') /\ Query.fnCalls q' = Query.fnCalls q + labelCalls l.
  Proof.
    intros Hwf. destruct 1 as [b q|res q q' Hq|f q q' Hq|q|q|q|fn q|q].
    - by apply fetch_refines.
    - destruct (onResponse_refines res q q' Hwf Hq). simpl. split; [done | lia].
    - by apply (onRetryTimer_refines f q q').
    - apply continueFetch_refines.
    - split; [apply s_tau | simpl; lia].
    - split; [| simpl; lia]. replace (abs (Query.removeObserver q)) with (abs q); [apply s_tau |].
      unfold abs, Query.removeObserver. cbn. case_decide; [| done].
      by destruct (Query.retryer q) as [[]|].
    - split; [apply s_tau | simpl; lia].
    - unfold Query.invalidate. case_match; (split; [apply s_tau | simpl; lia]).
  Qed.

  (** ** What the contract guarantees *)

Lemma spec_from_mono (ans ans' : list (Settled A E)) (s : spec) :
    ans ⊆ ans' -> spec_from ans s -> spec_from ans' s.
  Proof. intros Hs (Hd & He & Hw). split_and!; intros; [apply Hs; eauto ..]. Qed.

  (** Each step of the contract keeps what is shown among the answers
      received. *)
Lemma sstep_from (h : string) (l : Label) (s s' : spec) (ans : list (Settled A E)) :
    sstep h l s s' -> spec_from ans s -> spec_from (answersOf [l] ++ ans) s'.
  Proof.
    intros Hst (Hd & He & Hw). destruct Hst; unfold startSpec; simpl;
      split_and!; intros; repeat case_match; simplify_eq; set_solver.
  Qed.

Lemma sstar_app (h : string) (ls1 ls2 : list Label) (s1 s2 s3 : spec) :
    sstar h ls1 s1 s2 -> sstar h ls2 s2 s3 -> sstar h (ls1 ++ ls2) s1 s3.
  Proof.
    induction 1 as [|l ls s1' s2' s3' Hst _ IH]; intros H; [done |].
    simpl. apply (sstar_step _ l _ _ s2'); [done | by apply IH].
  Qed.

Lemma answersOf_app (ls1 ls2 : list Label) :
    answersOf (ls1 ++ ls2) = answersOf ls1 ++ answersOf ls2.
  Proof. unfold answersOf. by rewrite omap_app. Qed.

Lemma labelCalls_app (ls1 ls2 : list Label) :
    sum_list (labelCalls <$> ls1 ++ ls2) = sum_list (labelCalls <$> ls1) + sum_list (labelCalls <$> ls2).
  Proof. induction ls1 as [|l ls IH]; [done |]. rewrite <- app_comm_cons, !fmap_cons. simpl. lia. Qed.

  (** A run of the contract keeps what is shown among the answers
      received. *)
Lemma sstar_from (h : string) (ls : list Label) (s s' : spec) (ans : list (Settled A E)) :
    sstar h ls s s' -> spec_from ans s -> spec_from (answersOf ls ++ ans) s'.
  Proof.
    intros Hrun. revert ans. induction Hrun as [s|l ls s1 s2 s3 Hst _ IH]; intros ans Hs; [done |].
    apply (spec_from_mono (answersOf ls ++ (answersOf [l] ++ ans))).
    - change (l :: ls) with ([l] ++ ls). rewrite (answersOf_app [l] ls). set_solver.
    - apply IH. by apply (sstep_from h l s1).
  Qed.

Lemma specInit_from (ans : list (Settled A E)) : spec_from ans specInit.
  Proof. by split_and!. Qed.

Lemma abs_create (key : QueryKey) (hash : string) (fn : QueryFunction) :
    abs (Query.create key hash fn) = specInit.
  Proof. reflexivity. Qed.

  (** Refinement of the contract: every run of a cache entry that
      satisfies the entry invariant, made of the operations of [Query], is
      a run of the contract with the same labels, from the abstraction of
      its first state to that of its last; the query function is called
      exactly once per [LCall] label. *)
Lemma qstar_refines (ls : list Label) (q q' : Query.t A E) :
    Query.query_wf q -> qstar ls q q' ->
    sstar (Query.queryHash q) ls (abs q) (abs q') /\
    Query.fnCalls q' = Query.fnCalls q + sum_list (labelCalls <$> ls).
  Proof.
    intros Hwf Hrun. induction Hrun as [q|l ls q1 q2 q3 Hst Hrun IH]; [split; [constructor | simpl; lia] |].
    destruct (qstep_sim l q1 q2 Hwf Hst) as [Hs Hc].
    destruct (IH (qstep_wf l q1 q2 Hwf Hst)) as [Hss Hc'].
    rewrite (qstep_hash l q1 q2 Hst) in Hss.
    split; [by apply (sstar_step _ l ls _ (abs q2)) | rewrite fmap_cons; simpl; lia].
  Qed.
End EntrySpec.
Arguments Fetch : clear implicits.
Arguments spec : clear implicits.
Arguments Label : clear implicits.
End EntrySpec.
