(* ===== verification/Observer.v ===== *)
(** * The result a hook returns

    [useQuery] returns the result of its [QueryObserver]:
    [createResult(query, options)] ([queryObserver.ts]) copies [status],
    [fetchStatus], [data], [error] and the failure fields of the query
    state and derives the booleans the UI reads ([isPending], [isLoading],
    [isFetching], [isError], ...).  With no [select] and no
    [placeholderData], as in the hooks, [data] is the state's data itself.
    Timestamps, [isStale] (always true with [staleTime] 0),
    [isFetchedAfterMount], [isPlaceholderData], [refetch] and [promise]
    are not modelled.  The members of TanStack's [QueryObserverResult]
    union type are [ResultType]; [hasType] checks the fields a member
    fixes and [resultType] narrows a result to its member. *)

From S2P Require Import Prelude Api QueryKey QueryState Query.

Module Result.
Section Result.
  Context {A E : Type}.

Record t : Type := mk {
    status : QueryStatus;
    fetchStatus : FetchStatus;
    data : option A;
    error : option (QueryError E);
    isPending : bool;
    isSuccess : bool;
    isError : bool;
    isFetching : bool;
    isLoading : bool;
    isRefetching : bool;
    isLoadingError : bool;
    isRefetchError : bool;
    isPaused : bool;
    isFetched : bool;
    failureCount : nat;
    failureReason : option (QueryError E);
    errorUpdateCount : nat
  }.
End Result.
Arguments t : clear implicits.
End Result.

Section CreateResult.
  Context {A E : Type}.

  (** [createResult] for a query whose state is [s]. *)
Definition createResult (q : Query.t A E) : Result.t A E :=
    let s := Query.state q in
    let isFetching := bool_decide (QueryState.fetchStatus s = Fetching) in
    let isPending := bool_decide (QueryState.status s = Pending) in
    let isError := bool_decide (QueryState.status s = Error) in
    let hasData := bool_decide (is_Some (QueryState.data s)) in
    {| Result.status := QueryState.status s;
       Result.fetchStatus := QueryState.fetchStatus s;
       Result.data := QueryState.data s;
       Result.error := QueryState.error s;
       Result.isPending := isPending;
       Result.isSuccess := bool_decide (QueryState.status s = Success);
       Result.isError := isError;
       Result.isFetching := isFetching;
       Result.isLoading := isPending && isFetching;
       Result.isRefetching := isFetching && negb isPending;
       Result.isLoadingError := isError && negb hasData;
       Result.isRefetchError := isError && hasData;
       Result.isPaused := bool_decide (QueryState.fetchStatus s = Paused);
       Result.isFetched := bool_decide (0 < dataUpdateCount s) || bool_decide (0 < errorUpdateCount s);
       Result.failureCount := fetchFailureCount s;
       Result.failureReason := fetchFailureReason s;
       Result.errorUpdateCount := QueryState.errorUpdateCount s |}.
End CreateResult.

(** ** The result types

    TanStack types the result of an observer ([types.ts]) as the union
    [QueryObserverResult] of [QueryObserverPendingResult],
    [QueryObserverLoadingResult], [QueryObserverLoadingErrorResult],
    [QueryObserverRefetchErrorResult] and [QueryObserverSuccessResult]
    (and [QueryObserverPlaceholderResult], which needs [placeholderData]):
    each member fixes [status], whether [data] and [error] are defined,
    and the boolean flags.  A component narrows the union on [status] or
    on a flag and then reads [data] or [error] without a check. *)
Inductive ResultType : Type :=
  | PendingResult
  | LoadingResult
  | LoadingErrorResult
  | RefetchErrorResult
  | SuccessResult.

#[export] Instance ResultType_eq_dec : EqDecision ResultType.
Proof. solve_decision. Defined.

Section ResultTypes.
  Context {A E : Type}.

  (** Whether an optional field is defined (not [undefined] / [null]). *)
Definition isDefined {X : Type} (o : option X) : bool := bool_decide (is_Some o).

  (** The fields each member of the union fixes. *)
Definition hasType (k : ResultType) (r : Result.t A E) : bool :=
    match k with
    | PendingResult =>
        negb (isDefined (Result.data r)) && negb (isDefined (Result.error r)) &&
        negb (Result.isError r) && Result.isPending r && negb (Result.isLoadingError r) &&
        negb (Result.isRefetchError r) && negb (Result.isSuccess r) &&
        bool_decide (Result.status r = Pending)
    | LoadingResult =>
        negb (isDefined (Result.data r)) && negb (isDefined (Result.error r)) &&
        negb (Result.isError r) && Result.isPending r && Result.isLoading r &&
        negb (Result.isLoadingError r) && negb (Result.isRefetchError r) &&
        negb (Result.isSuccess r) && bool_decide (Result.status r = Pending)
    | LoadingErrorResult =>
        negb (isDefined (Result.data r)) && isDefined (Result.error r) &&
        Result.isError r && negb (Result.isPending r) && negb (Result.isLoading r) &&
        Result.isLoadingError r && negb (Result.isRefetchError r) &&
        negb (Result.isSuccess r) && bool_decide (Result.status r = Error)
    | RefetchErrorResult =>
        isDefined (Result.data r) && isDefined (Result.error r) &&
        Result.isError r && negb (Result.isPending r) && negb (Result.isLoading r) &&
        negb (Result.isLoadingError r) && Result.isRefetchError r &&
        negb (Result.isSuccess r) && bool_decide (Result.status r = Error)
    | SuccessResult =>
        isDefined (Result.data r) && negb (isDefined (Result.error r)) &&
        negb (Result.isError r) && negb (Result.isPending r) && negb (Result.isLoading r) &&
        negb (Result.isLoadingError r) && negb (Result.isRefetchError r) &&
        Result.isSuccess r && bool_decide (Result.status r = Success)
    end.

  (** The member a component narrows to: by [status], then by [isLoading]
      or by whether [data] is defined. *)
Definition resultType (r : Result.t A E) : ResultType :=
    match Result.status r with
    | Pending => if Result.isLoading r then LoadingResult else PendingResult
    | Error => if isDefined (Result.data r) then RefetchErrorResult else LoadingErrorResult
    | Success => SuccessResult
    end.

  (** A loading result is also a pending one ([isLoading] is a [boolean]
      in [QueryObserverPendingResult]); no other two members overlap. *)
Lemma hasType_unique (k k' : ResultType) (r : Result.t A E) :
    hasType k r = true -> hasType k' r = true ->
    k = k' \/ (k = PendingResult /\ k' = LoadingResult) \/ (k = LoadingResult /\ k' = PendingResult).
  Proof.
    destruct k, k'; simpl; rewrite ?andb_true_iff, ?negb_true_iff, ?bool_decide_eq_true;
      intros; destruct_and?; simplify_eq; auto; congruence.
  Qed.

  (** A consistent query state gives a result of the member [resultType]
      names. *)
Lemma createResult_hasType (q : Query.t A E) :
    state_wf (Query.state q) -> hasType (resultType (createResult q)) (createResult q) = true.
  Proof.
    intros [Hp Hs He Hd]. unfold createResult, resultType, isDefined. simpl.
    destruct (QueryState.status (Query.state q)) eqn:Hst.
    - destruct (Hp eq_refl) as [-> ->].
      destruct (QueryState.fetchStatus (Query.state q)); reflexivity.
    - destruct (He eq_refl) as [e ->].
      destruct (QueryState.data (Query.state q)); reflexivity.
    - destruct (Hs eq_refl) as [[d ->] ->]. reflexivity.
  Qed.
End ResultTypes.
