(* ===== verification/Client.v ===== *)
(** * The query cache and [useQuery]

    TanStack's [QueryCache] maps query hashes to [Query] entries; a
    [QueryObserver] (one per mounted component) attaches to the entry of
    its options' key.  This file models:

    - [build] ([QueryCache#build]): the entry under [hashKey(queryKey)],
      created on first use;
    - [mount]: what [useQuery(options)] does when its component mounts
      ([new QueryObserver], [setOptions], subscription: [addObserver] and
      the fetch on mount);
    - [useQuery]: [mount], then the observer's [createResult];
    - [onFocus] ([QueryCache#onFocus]): [queryOnFocus] ([Query#onFocus])
      on every entry, refetching the observed stale ones and continuing a
      suspended retryer;
    - the environment's events ([Event]): a mount, an unmount, the
      response to the attempt in flight, the end of a retry delay (with
      the focus state read then), the garbage-collection timer, an
      [invalidateQueries] call, the window regaining the focus; [exec]
      runs one, [run] a sequence of them;
    - [reachable]: the caches reachable from the empty cache, and the
      invariants they all satisfy: [client_wf] ([reachable_wf], by rule
      induction over [reachable]) and [client_settled] (an idle entry is
      never [pending]);
    - the driver [settleEvents] of a fetch in flight, the measure
      [retryMeasure] that bounds it and the potential [callsLeft] that
      bounds its calls.

    The cache is the state of the [ST] monad of the prelude: the hooks
    read and write this one shared store, so two hooks with the same key
    would share an entry and two hooks with different keys never do. *)

From S2P Require Import Prelude Api QueryKey QueryState Query Observer.

(** The options object of a [useQuery] call, with the two fields the
    sources set; every other option has its default. *)
Record UseQueryOptions : Type := {
  queryKey : QueryKey;
  queryFn : QueryFunction
}.

Abbreviation QueryCache A E := (gmap string (Query.t A E)).

Section Client.
  Context {A E : Type}.

  (** [QueryCache#build(client, options)]. *)
Definition build (opts : UseQueryOptions) : ST (QueryCache A E) (Query.t A E) :=
    fun cache =>
      let h := hashKey (queryKey opts) in
      match cache !! h with
      | Some q => (q, cache)
      | None =>
          let q := Query.create (queryKey opts) h (queryFn opts) in
          (q, <[h:=q]> cache)
      end.

  (** The defaults of the options the hooks leave unset. *)
Definition defaultRetryOnMount : bool := true.
Definition defaultRefetchOnMount : bool := true.

  (** [query.isStaleByTime(staleTime)] with the default [staleTime] 0:
      [isInvalidated || data === undefined || !timeUntilStale(dataUpdatedAt, 0)],
      whose last disjunct holds as soon as the data is written. *)
Definition isStale (q : Query.t A E) : bool :=
    isInvalidated (Query.state q) || bool_decide (data (Query.state q) = None) || true.

  (** [shouldFetchOnMount(query, options)]: [shouldLoadOnMount] when there
      is no data, otherwise [refetchOnMount] on stale data. *)
Definition shouldFetchOnMount (q : Query.t A E) : bool :=
    match data (Query.state q) with
    | None => negb (bool_decide (status (Query.state q) = Error) && negb defaultRetryOnMount)
    | Some _ => defaultRefetchOnMount && isStale q
    end.

  (** A component mounting [useQuery(opts)]: the observer builds the entry,
      passes it its options, subscribes ([addObserver]) and fetches on
      mount ([query.fetch()] without [cancelRefetch]). *)
Definition mountEntry (opts : UseQueryOptions) (q : Query.t A E) : Query.t A E :=
    let q1 := Query.addObserver (Query.setOptions (queryFn opts) q) in
    if shouldFetchOnMount q1 then Query.fetch false q1 else q1.

Definition mount (opts : UseQueryOptions) : ST (QueryCache A E) (Query.t A E) :=
    (q <-- build opts ;;
     let q2 := mountEntry opts q in
     st_modify (insert (hashKey (queryKey opts)) q2) ;;;
     st_ret q2)%st.

  (** [useQuery(opts)]: the result of the observer after the mount. *)
Definition useQuery (opts : UseQueryOptions) : ST (QueryCache A E) (Result.t A E) :=
    (q <-- mount opts ;; st_ret (createResult q))%st.

  (** [invalidateQueries({ queryKey: filterKey })]: every entry whose key
      starts with [filterKey] is invalidated; the active ones (with an
      observer) are refetched with [cancelRefetch: true]. *)
Definition invalidateQueries (filterKey : QueryKey) (cache : QueryCache A E) : QueryCache A E :=
    (fun q =>
       if partialMatchKey (Query.queryKey q) filterKey then
         let q1 := Query.invalidate q in
         if bool_decide (0 < Query.observers q1) then Query.fetch true q1 else q1
       else q) <$> cache.

  (** [observer.shouldFetchOnWindowFocus()] for an observer of the entry
      ([observers.find]): the hooks' observers have the default [enabled]
      and [refetchOnWindowFocus: true], so [shouldFetchOn] asks whether the
      entry has an observer and is stale. *)
Definition shouldFetchOnWindowFocus (q : Query.t A E) : bool :=
    bool_decide (0 < Query.observers q) && isStale q.

  (** [query.onFocus()]: [observer?.refetch({ cancelRefetch: false })],
      then [this.#retryer?.continue()]. *)
Definition queryOnFocus (q : Query.t A E) : Query.t A E :=
    Query.continueFetch (if shouldFetchOnWindowFocus q then Query.fetch false q else q).

  (** [queryCache.onFocus()], run when the window regains the focus:
      [query.onFocus()] on every entry. *)
Definition onFocus (cache : QueryCache A E) : QueryCache A E :=
    queryOnFocus <$> cache.

  (** The events of the environment.  A retry timer carries the value of
      [focusManager.isFocused()] when it fires; [EvFocus] is the window
      regaining the focus. *)
Inductive Event : Type :=
  | EvMount (opts : UseQueryOptions)
  | EvUnmount (queryHash : string)
  | EvRespond (queryHash : string) (res : Settled A E)
  | EvRetryTimer (queryHash : string) (focused : bool)
  | EvGcTimer (queryHash : string)
  | EvInvalidate (filterKey : QueryKey)
  | EvFocus.

  (** Applies a partial operation to the entry under [h]. *)
Definition updateEntry (h : string) (f : Query.t A E -> option (Query.t A E))
      (cache : QueryCache A E) : option (QueryCache A E) :=
    match cache !! h with
    | Some q => match f q with Some q' => Some (<[h:=q']> cache) | None => None end
    | None => None
    end.

  (** What an event that concerns one existing entry does to it: an
      unmount ([removeObserver], impossible with no observer), the response
      to the attempt in flight, the end of the retry delay. *)
Definition entryOp (ev : Event) : Query.t A E -> option (Query.t A E) :=
    match ev with
    | EvUnmount _ => fun q =>
        if decide (Query.observers q = 0) then None else Some (Query.removeObserver q)
    | EvRespond _ res => Query.onResponse res
    | EvRetryTimer _ focused => Query.onRetryTimer focused
    | _ => fun _ => None
    end.

  (** The test of [Query#optionalRemove], run when the garbage-collection
      timer fires: [!this.observers.length] and then
      [this.state.fetchStatus === 'idle']. *)
Definition isRemovable (q : Query.t A E) : bool :=
    bool_decide (Query.observers q = 0) && bool_decide (fetchStatus (Query.state q) = Idle).

  (** One event; [None] when it cannot happen in that state (an unmount
      with no observer, a response with no attempt running, ...).  The
      garbage-collection timer removes an entry with no observer and no
      fetch in flight ([optionalRemove]) and otherwise does nothing. *)
Definition exec (ev : Event) (cache : QueryCache A E) : option (QueryCache A E) :=
    match ev with
    | EvMount opts => Some (snd (mount opts cache))
    | EvUnmount h => updateEntry h (entryOp ev) cache
    | EvRespond h res => updateEntry h (entryOp ev) cache
    | EvRetryTimer h _ => updateEntry h (entryOp ev) cache
    | EvGcTimer h =>
        match cache !! h with
        | Some q =>
            if isRemovable q then Some (delete h cache) else Some cache
        | None => None
        end
    | EvInvalidate k => Some (invalidateQueries k cache)
    | EvFocus => Some (onFocus cache)
    end.

Fixpoint run (evs : list Event) (cache : QueryCache A E) : option (QueryCache A E) :=
    match evs with
    | [] => Some cache
    | ev :: evs' => match exec ev cache with Some c => run evs' c | None => None end
    end.

Inductive reachable : QueryCache A E -> Prop :=
  | reachable_init : reachable ∅
  | reachable_step (cache cache' : QueryCache A E) (ev : Event) :
      reachable cache -> exec ev cache = Some cache' -> reachable cache'.

  (** The cache invariant: every entry is filed under its own hash and
      satisfies the entry invariant. *)
Definition client_wf (cache : QueryCache A E) : Prop :=
    map_Forall (fun h q => Query.queryHash q = h /\ Query.query_wf q) cache.

  (** The result a mounted observer shows for the entry under [h] now
      ([getCurrentResult], re-read at each render). *)
Definition currentResult (h : string) (cache : QueryCache A E) : option (Result.t A E) :=
    createResult <$> cache !! h.

  (** The entry an event is about; [invalidateQueries] may touch several. *)
Definition eventTarget (ev : Event) : option string :=
    match ev with
    | EvMount opts => Some (hashKey (queryKey opts))
    | EvUnmount h | EvRespond h _ | EvRetryTimer h _ | EvGcTimer h => Some h
    | EvInvalidate _ | EvFocus => None
    end.

  (** Whether an event concerns the existing entry [h] only. *)
Definition isEntryEvent (h : string) (ev : Event) : bool :=
    match ev with
    | EvUnmount h' | EvRespond h' _ | EvRetryTimer h' _ => bool_decide (h' = h)
    | _ => false
    end.

  (** A run of such events on one entry. *)
Fixpoint runEntry (evs : list Event) (q : Query.t A E) : option (Query.t A E) :=
    match evs with
    | [] => Some q
    | ev :: evs' => match entryOp ev q with Some q' => runEntry evs' q' | None => None end
    end.

  (** The events that drive the fetch in flight of entry [h] to its end,
      with the [n]-th response [out n]: a response while an attempt runs,
      the retry timer (with the window focused) while the retryer sleeps,
      the window regaining the focus while it is suspended; at most [fuel]
      of them. *)
Fixpoint settleEvents (fuel : nat) (h : string) (out : nat -> Settled A E)
    (cache : QueryCache A E) : list Event :=
  match fuel with
  | 0 => []
  | S n =>
      match cache !! h ≫= Query.retryer with
      | None => []
      | Some r =>
          let ev := match phase r with
                    | Running => EvRespond h (out n)
                    | Sleeping _ => EvRetryTimer h true
                    | Suspended _ => EvFocus
                    end in
          match exec ev cache with
          | Some c => ev :: settleEvents n h out c
          | None => []
          end
      end
  end.

  (** The events the retryer may still need: two per remaining retry
      (a response and a timer or focus), one more for a running attempt,
      two more for a waiting one. *)
Definition retryMeasure (q : Query.t A E) : nat :=
  match Query.retryer q with
  | None => 0
  | Some r =>
      match phase r with
      | Running => 2 * (defaultRetry - failureCount r) + 1
      | Sleeping _ | Suspended _ => 2 * (defaultRetry - failureCount r) + 2
      end
  end.

  (** The calls of the query function the retryer may still make: one per
      remaining retry, one more for a waiting retryer's next attempt. *)
Definition callsLeft (q : Query.t A E) : nat :=
  match Query.retryer q with
  | None => 0
  | Some r =>
      match phase r with
      | Running => defaultRetry - failureCount r
      | Sleeping _ | Suspended _ => defaultRetry - failureCount r + 1
      end
  end.

  (** A driving event's progress: the measure decreases and no call is
      made beyond those the retryer had left. *)
Definition settle_progress (q q' : Query.t A E) : Prop :=
  retryMeasure q' < retryMeasure q /\
  Query.fnCalls q' + callsLeft q' <= Query.fnCalls q + callsLeft q.

  (** An idle entry has settled: it is not [pending].  A new entry is
      idle and pending only until the mount that built it fetches. *)
Definition entry_settled (q : Query.t A E) : Prop :=
    fetchStatus (Query.state q) = Idle -> status (Query.state q) <> Pending.

Definition client_settled (cache : QueryCache A E) : Prop :=
    map_Forall (fun _ q => entry_settled q) cache.

  (** ** The invariant of the cache *)

Lemma mount_eq (opts : UseQueryOptions) (cache : QueryCache A E) :
    mount opts cache =
      let '(q, c) := build opts cache in
      (mountEntry opts q, <[hashKey (queryKey opts) := mountEntry opts q]> c).
  Proof. unfold mount, st_bind, st_modify, st_ret. by destruct (build opts cache). Qed.

  (** The entry [build] returns is the one filed under the key's hash. *)
Lemma build_spec (opts : UseQueryOptions) (cache : QueryCache A E) :
    client_wf cache ->
    let '(q, c) := build opts cache in
    c !! hashKey (queryKey opts) = Some q /\
    Query.queryHash q = hashKey (queryKey opts) /\ Query.query_wf q /\ client_wf c /\
    (forall h, h <> hashKey (queryKey opts) -> c !! h = cache !! h).
  Proof.
    intros Hwf. unfold build.
    destruct (cache !! hashKey (queryKey opts)) as [q|] eqn:Hq.
    - destruct (Hwf _ _ Hq) as [Hh Hq']. by split_and!.
    - split_and!; [by rewrite lookup_insert_eq | done | apply Query.create_wf | |].
      + apply map_Forall_insert_2; [split; [done | apply Query.create_wf] | done].
      + intros h Hne. by rewrite lookup_insert_ne.
  Qed.

  (** Fetching keeps the key, the hash and the query function of an entry. *)
Lemma fetch_ids (b : bool) (q : Query.t A E) :
    Query.queryKey (Query.fetch b q) = Query.queryKey q /\
    Query.queryHash (Query.fetch b q) = Query.queryHash q /\
    Query.queryFn (Query.fetch b q) = Query.queryFn q.
  Proof.
    unfold Query.fetch, Query.startFetch.
    repeat (case_decide || case_match); done.
  Qed.

Lemma mountEntry_hash (opts : UseQueryOptions) (q : Query.t A E) :
    Query.queryHash (mountEntry opts q) = Query.queryHash q.
  Proof.
    unfold mountEntry. destruct (shouldFetchOnMount _); [| done].
    by rewrite (proj1 (proj2 (fetch_ids _ _))).
  Qed.

Lemma mountEntry_wf (opts : UseQueryOptions) (q : Query.t A E) :
    Query.query_wf q -> Query.query_wf (mountEntry opts q).
  Proof.
    intros Hwf. unfold mountEntry.
    pose proof (Query.addObserver_wf _ (Query.setOptions_wf (queryFn opts) q Hwf)).
    destruct (shouldFetchOnMount _); [by apply Query.fetch_wf | done].
  Qed.

Lemma mount_wf (opts : UseQueryOptions) (cache : QueryCache A E) :
    client_wf cache -> client_wf (snd (mount opts cache)).
  Proof.
    intros Hwf. rewrite mount_eq. pose proof (build_spec opts cache Hwf) as Hb.
    destruct (build opts cache) as [q c]. destruct Hb as (_ & Hh & Hq & Hc & _).
    apply map_Forall_insert_2; [| done].
    split; [by rewrite mountEntry_hash | by apply mountEntry_wf].
  Qed.

  (** An operation on one entry that keeps its invariant keeps the
      cache's. *)
Lemma updateEntry_wf (h : string) (f : Query.t A E -> option (Query.t A E))
      (cache cache' : QueryCache A E) :
    (forall q q', Query.query_wf q -> f q = Some q' ->
       Query.query_wf q' /\ Query.queryHash q' = Query.queryHash q) ->
    client_wf cache -> updateEntry h f cache = Some cache' -> client_wf cache'.
  Proof.
    intros Hf Hwf. unfold updateEntry.
    destruct (cache !! h) as [q|] eqn:Hq; [| done].
    destruct (f q) as [q'|] eqn:Hfq; [| done]. intros [= <-].
    destruct (Hwf _ _ Hq) as [Hh Hwq]. destruct (Hf q q' Hwq Hfq) as [Hwq' Hh'].
    apply map_Forall_insert_2; [split; [congruence | done] | done].
  Qed.

Lemma invalidateQueries_wf (k : QueryKey) (cache : QueryCache A E) :
    client_wf cache -> client_wf (invalidateQueries k cache).
  Proof.
    intros Hwf h q. unfold invalidateQueries. rewrite lookup_fmap.
    destruct (cache !! h) as [q0|] eqn:Hq; [| done]. intros [= <-].
    destruct (Hwf _ _ Hq) as [Hh Hw].
    destruct (partialMatchKey _ _); [| done].
    pose proof (Query.invalidate_wf q0 Hw) as Hi.
    case_bool_decide; [| split; [| done]; unfold Query.invalidate; by destruct (isInvalidated _)].
    split; [| by apply Query.fetch_wf].
    unfold Query.fetch, Query.startFetch, Query.invalidate.
    destruct (isInvalidated _); repeat case_decide; try done;
      destruct (_ && _); try done; by destruct (Query.retryer _).
  Qed.

Lemma queryOnFocus_wf (q : Query.t A E) :
    Query.query_wf q -> Query.query_wf (queryOnFocus q) /\
    Query.queryHash (queryOnFocus q) = Query.queryHash q.
  Proof.
    intros Hwf. unfold queryOnFocus.
    rewrite (proj1 (proj2 (Query.continueFetch_ids _))).
    destruct (shouldFetchOnWindowFocus q).
    - split; [by apply Query.continueFetch_wf, Query.fetch_wf | apply fetch_ids].
    - split; [by apply Query.continueFetch_wf | done].
  Qed.

Lemma onFocus_wf (cache : QueryCache A E) : client_wf cache -> client_wf (onFocus cache).
  Proof.
    intros Hwf h q. unfold onFocus. rewrite lookup_fmap.
    destruct (cache !! h) as [q0|] eqn:Hq; [| done]. intros [= <-].
    destruct (Hwf _ _ Hq) as [Hh Hw]. destruct (queryOnFocus_wf q0 Hw) as [Hw' Hh'].
    split; [congruence | done].
  Qed.

  (** Every event of the environment preserves the cache invariant. *)
Lemma exec_wf (ev : Event) (cache cache' : QueryCache A E) :
    client_wf cache -> exec ev cache = Some cache' -> client_wf cache'.
  Proof.
    intros Hwf. destruct ev as [opts|h|h res|h f|h|k|]; simpl.
    - intros [= <-]. by apply mount_wf.
    - apply updateEntry_wf; [| done]. intros q q' Hq. simpl.
      case_decide; [done |]. intros [= <-]. split; [by apply Query.removeObserver_wf | done].
    - apply updateEntry_wf; [| done]. intros q q' Hq Hr.
      split; [by eapply Query.onResponse_wf | apply (Query.onResponse_ids _ _ _ Hr)].
    - apply updateEntry_wf; [| done]. intros q q' Hq Hr.
      split; [by eapply Query.onRetryTimer_wf | apply (Query.onRetryTimer_ids _ _ _ Hr)].
    - destruct (cache !! h); [| done].
      destruct (isRemovable _); intros [= <-]; [by apply map_Forall_delete | done].
    - intros [= <-]. by apply invalidateQueries_wf.
    - intros [= <-]. by apply onFocus_wf.
  Qed.

  (** [C8] Every cache reachable from the empty cache by the events of the
      environment satisfies the cache invariant: each entry under its own
      hash, with a consistent state ([state_wf]), a retryer exactly while
      the fetch status is not [idle] (that is, [fetching] or [paused]), a
      suspended retryer only while [paused], a sleeping or suspended
      retryer only after a failure, and failure counts within the retry
      limit. *)
Theorem reachable_wf (cache : QueryCache A E) : reachable cache -> client_wf cache.
  Proof.
    induction 1 as [|cache cache' ev _ IH Hex].
    - apply map_Forall_empty.
    - by apply (exec_wf ev cache).
  Qed.

Lemma run_reachable (evs : list Event) (cache cache' : QueryCache A E) :
    reachable cache -> run evs cache = Some cache' -> reachable cache'.
  Proof.
    revert cache. induction evs as [|ev evs IH]; intros cache Hr; simpl.
    - by intros [= <-].
    - destruct (exec ev cache) as [c|] eqn:Hex; [| done].
      apply IH. by apply (reachable_step cache c ev).
  Qed.

  (** ** [useQuery] on a key with no entry *)

  (** The entry a first mount leaves: fetching, one observer, one call of
      the query function, a running retryer. *)
Lemma mountEntry_create (opts : UseQueryOptions) :
    mountEntry opts (Query.create (queryKey opts) (hashKey (queryKey opts)) (queryFn opts)) =
    Query.mk (queryKey opts) (hashKey (queryKey opts)) (queryFn opts)
      (reducer true AFetch getDefaultState) 1 (Some (mkRetryer 0 false Running)) 1.
  Proof. reflexivity. Qed.

Lemma useQuery_fresh (opts : UseQueryOptions) (cache : QueryCache A E) :
    cache !! hashKey (queryKey opts) = None ->
    useQuery opts cache =
      (createResult (mountEntry opts (Query.create (queryKey opts) (hashKey (queryKey opts)) (queryFn opts))),
       <[hashKey (queryKey opts) :=
           mountEntry opts (Query.create (queryKey opts) (hashKey (queryKey opts)) (queryFn opts))]> cache).
  Proof.
    intros Hnone. unfold useQuery, st_bind, st_ret. rewrite mount_eq.
    unfold build. rewrite Hnone. by rewrite insert_insert_eq.
  Qed.

  (** ** Locality: an event touches one entry *)

Lemma build_frame (opts : UseQueryOptions) (cache : QueryCache A E) (h' : string) :
    h' <> hashKey (queryKey opts) -> (build opts cache).2 !! h' = cache !! h'.
  Proof.
    intros Hne. unfold build. destruct (cache !! _); [done |]. simpl.
    by rewrite lookup_insert_ne.
  Qed.

Lemma updateEntry_frame (h h' : string) (f : Query.t A E -> option (Query.t A E))
      (cache cache' : QueryCache A E) :
    h' <> h -> updateEntry h f cache = Some cache' -> cache' !! h' = cache !! h'.
  Proof.
    intros Hne. unfold updateEntry. repeat case_match; intros; simplify_eq.
    by rewrite lookup_insert_ne.
  Qed.

  (** An event about the entry [h] leaves every other entry as it was. *)
Lemma exec_frame (ev : Event) (h h' : string) (cache cache' : QueryCache A E) :
    eventTarget ev = Some h -> h' <> h -> exec ev cache = Some cache' ->
    cache' !! h' = cache !! h'.
  Proof.
    intros Ht Hne. destruct ev as [opts|h0|h0 res|h0 f|h0|k|]; simpl in *; simplify_eq.
    - intros [= <-]. rewrite mount_eq.
      destruct (build opts cache) as [q c] eqn:Hb. simpl.
      rewrite lookup_insert_ne; [| done].
      by rewrite <- (build_frame opts cache h'), Hb.
    - apply updateEntry_frame. done.
    - apply updateEntry_frame. done.
    - apply updateEntry_frame. done.
    - destruct (cache !! h) as [q|]; [| done].
      destruct (isRemovable q); intros [= <-]; [| done]. by rewrite lookup_delete_ne.
  Qed.

  (** Events on an entry just written: the computation of a scenario. *)
Lemma updateEntry_insert (h : string) (f : Query.t A E -> option (Query.t A E))
      (q : Query.t A E) (cache : QueryCache A E) :
    updateEntry h f (<[h:=q]> cache) = (fun q' => <[h:=q']> cache) <$> f q.
  Proof.
    unfold updateEntry. rewrite lookup_insert_eq.
    destruct (f q); simpl; [by rewrite insert_insert_eq | done].
  Qed.

Lemma currentResult_insert (h : string) (q : Query.t A E) (cache : QueryCache A E) :
    currentResult h (<[h:=q]> cache) = Some (createResult q).
  Proof. unfold currentResult. by rewrite lookup_insert_eq. Qed.

  (** The entry of a mount, in a cache that satisfies the invariant. *)
Lemma mount_entry (opts : UseQueryOptions) (cache : QueryCache A E) :
    client_wf cache ->
    exists q, (build opts cache).1 = q /\ Query.query_wf q /\
      (cache !! hashKey (queryKey opts) = Some q \/
       (cache !! hashKey (queryKey opts) = None /\
        q = Query.create (queryKey opts) (hashKey (queryKey opts)) (queryFn opts))) /\
      mount opts cache = (mountEntry opts q, <[hashKey (queryKey opts) := mountEntry opts q]> cache).
  Proof.
    intros Hwf. rewrite mount_eq. pose proof (build_spec opts cache Hwf) as Hb.
    unfold build in *. destruct (cache !! hashKey (queryKey opts)) as [q|] eqn:Hq.
    - exists q. destruct Hb as (_ & _ & Hw & _). split_and!; [done | done | by left |].
      done.
    - eexists. destruct Hb as (_ & _ & Hw & _). split_and!; [done | done | by right |].
      by rewrite insert_insert_eq.
  Qed.

Lemma run_entry (h : string) (evs : list Event) (q : Query.t A E) (cache : QueryCache A E) :
    forallb (isEntryEvent h) evs = true ->
    run evs (<[h:=q]> cache) = (fun q' => <[h:=q']> cache) <$> runEntry evs q.
  Proof.
    revert q. induction evs as [|ev evs IH]; intros q Hall; [done |].
    simpl in Hall. apply andb_true_iff in Hall as [Hev Hall].
    assert (Hex : exec ev (<[h:=q]> cache) = (fun q' => <[h:=q']> cache) <$> entryOp ev q).
    { destruct ev; simpl in Hev; try done; apply bool_decide_eq_true in Hev as ->;
        apply updateEntry_insert. }
    simpl. rewrite Hex. destruct (entryOp ev q); simpl; [by apply IH | done].
  Qed.

Lemma useQuery_eq (opts : UseQueryOptions) (cache : QueryCache A E) :
    useQuery opts cache = (createResult (mount opts cache).1, (mount opts cache).2).
  Proof. unfold useQuery, st_bind, st_ret. by destruct (mount opts cache). Qed.

  (** The result depends on the entry's state only. *)
Lemma createResult_state (q q' : Query.t A E) :
    Query.state q = Query.state q' -> createResult q = createResult q'.
  Proof. intros Hs. unfold createResult. by rewrite Hs. Qed.

  (** Mounting on an entry whose fetch is in flight joins that fetch: no
      new call, the state unchanged, one more observer. *)
Lemma mountEntry_fetching (opts : UseQueryOptions) (q : Query.t A E) :
    Query.query_wf q -> fetchStatus (Query.state q) = Fetching ->
    Query.state (mountEntry opts q) = Query.state q /\
    Query.fnCalls (mountEntry opts q) = Query.fnCalls q /\
    Query.observers (mountEntry opts q) = S (Query.observers q).
  Proof.
    intros Hwf Hf. destruct (Query.retryer q) as [r|] eqn:Hr.
    2: { apply (Query.wf_retryer _ Hwf) in Hr. congruence. }
    unfold mountEntry. destruct (shouldFetchOnMount _); [| done].
    unfold Query.fetch. cbn. rewrite Hf. case_decide; [done |].
    rewrite andb_false_r. cbn. by rewrite Hr.
  Qed.

  (** A [useQuery] call is the mount event: it leaves a reachable cache
      reachable. *)
Lemma useQuery_reachable (opts : UseQueryOptions) (cache : QueryCache A E) :
    reachable cache -> reachable (useQuery opts cache).2.
  Proof.
    intros Hr. rewrite useQuery_eq. apply (reachable_step cache _ (EvMount opts)); done.
  Qed.

  (** The entry and result of a mount on a reachable cache satisfy the
      entry invariant. *)
Lemma useQuery_wf (opts : UseQueryOptions) (cache : QueryCache A E) :
    reachable cache ->
    exists q, Query.query_wf q /\ (useQuery opts cache).1 = createResult q /\
      (useQuery opts cache).2 !! hashKey (queryKey opts) = Some q.
  Proof.
    intros Hr. destruct (mount_entry opts cache (reachable_wf _ Hr)) as (q & _ & Hw & _ & Hm).
    exists (mountEntry opts q). rewrite useQuery_eq, Hm. simpl.
    split_and!; [by apply mountEntry_wf | done | by rewrite lookup_insert_eq].
  Qed.

  (** ** Termination of a fetch *)

  (** A response to the running attempt, or the retry timer of a sleeping
      retryer with the window focused, is possible and decreases the
      measure. *)
Lemma entry_settle_step (h : string) (o : Settled A E) (q : Query.t A E) (r : Retryer E) :
    Query.query_wf q -> Query.retryer q = Some r ->
    match phase r with
    | Running => exists q', entryOp (EvRespond h o) q = Some q' /\ settle_progress q q'
    | Sleeping _ => exists q', entryOp (EvRetryTimer h true) q = Some q' /\ settle_progress q q'
    | Suspended _ => True
    end.
  Proof.
    intros Hwf Hr. pose proof (Query.wf_retryer_count _ Hwf r Hr) as Hc.
    unfold settle_progress, retryMeasure, callsLeft. simpl.
    unfold Query.onResponse, Query.onRetryTimer. rewrite Hr.
    destruct (phase r) as [|e0|e0]; [| | done].
    - destruct o as [[d|]|e]; [eexists; split; [done | simpl; lia] .. |].
      destruct (isRetryCancelled r || negb (failureCount r <? defaultRetry)) eqn:Hb;
        (eexists; split; [done |]); simpl; [lia |].
      apply orb_false_iff in Hb as [_ Hb]. apply negb_false_iff, Nat.ltb_lt in Hb.
      unfold defaultRetry in *. lia.
    - eexists. split; [done |]. destruct (isRetryCancelled r); simpl; lia.
  Qed.

  (** The window regaining the focus resumes a suspended retryer: a new
      attempt or the last error. *)
Lemma queryOnFocus_suspended (q : Query.t A E) (r : Retryer E) (e : E) :
    Query.query_wf q -> Query.retryer q = Some r -> phase r = Suspended e ->
    settle_progress q (queryOnFocus q).
  Proof.
    intros Hwf Hr Hph. pose proof (Query.query_wf_retryer_active q r Hwf Hr) as Hf.
    unfold settle_progress, queryOnFocus, retryMeasure, callsLeft. rewrite Hr, Hph.
    destruct (shouldFetchOnWindowFocus q).
    - unfold Query.fetch. rewrite decide_False by done. rewrite andb_false_r, Hr.
      unfold Query.continueFetch. simpl. rewrite Hph. simpl. lia.
    - unfold Query.continueFetch. rewrite Hr, Hph.
      destruct (isRetryCancelled r); simpl; lia.
  Qed.

  (** Each driving event is possible, keeps the entry and progresses. *)
Lemma settle_step (h : string) (o : Settled A E) (cache : QueryCache A E) (q : Query.t A E) (r : Retryer E) :
    client_wf cache -> cache !! h = Some q -> Query.retryer q = Some r ->
    let ev := match phase r with
              | Running => EvRespond h o
              | Sleeping _ => EvRetryTimer h true
              | Suspended _ => EvFocus
              end in
    exists c q', exec ev cache = Some c /\ c !! h = Some q' /\ settle_progress q q'.
  Proof.
    intros Hwf Hq Hr ev. destruct (Hwf _ _ Hq) as [_ Hw].
    pose proof (entry_settle_step h o q r Hw Hr) as Hs. subst ev.
    destruct (phase r) as [|e0|e0] eqn:Hph.
    - destruct Hs as (q' & Hop & Hlt). exists (<[h:=q']> cache), q'.
      simpl in *. unfold updateEntry. rewrite Hq, Hop. by rewrite lookup_insert_eq.
    - destruct Hs as (q' & Hop & Hlt). exists (<[h:=q']> cache), q'.
      simpl in *. unfold updateEntry. rewrite Hq, Hop. by rewrite lookup_insert_eq.
    - exists (onFocus cache), (queryOnFocus q). split_and!; [done | | by eapply queryOnFocus_suspended].
      unfold onFocus. by rewrite lookup_fmap, Hq.
  Qed.

  (** The driving events end the fetch within [fuel] events, calling the
      query function at most [callsLeft q] more times. *)
Lemma settleEvents_spec (fuel : nat) (h : string) (out : nat -> Settled A E)
    (cache : QueryCache A E) (q : Query.t A E) :
    client_wf cache -> cache !! h = Some q -> retryMeasure q <= fuel ->
    length (settleEvents fuel h out cache) <= fuel /\
    exists c q', run (settleEvents fuel h out cache) cache = Some c /\ client_wf c /\
      c !! h = Some q' /\ fetchStatus (Query.state q') = Idle /\
      Query.fnCalls q' <= Query.fnCalls q + callsLeft q.
  Proof.
    revert cache q. induction fuel as [|n IH]; intros cache q Hwf Hq Hm.
    - simpl. split; [lia |]. exists cache, q. split_and!; [done | done | done | | lia].
      destruct (Hwf _ _ Hq) as [_ Hw]. apply (Query.wf_retryer _ Hw). unfold retryMeasure in Hm.
      destruct (Query.retryer q) as [r|]; [| done].
      destruct (phase r); lia.
    - simpl. rewrite Hq. simpl. destruct (Query.retryer q) as [r|] eqn:Hr.
      + destruct (settle_step h (out n) cache q r Hwf Hq Hr) as (c & q' & Hex & Hq' & Hlt & Hcalls).
        rewrite Hex.
        destruct (IH c q' (exec_wf _ _ _ Hwf Hex) Hq') as (Hlen & c' & q'' & Hrun & Hrest); [lia |].
        split; [simpl; lia |]. exists c', q''. simpl. rewrite Hex. split_and!; try apply Hrest; [done |].
        destruct Hrest as (_ & _ & _ & Hc). lia.
      + split; [simpl; lia |]. exists cache, q. split_and!; [done | done | done | | lia].
        destruct (Hwf _ _ Hq) as [_ Hw]. by apply (Query.wf_retryer _ Hw).
  Qed.

Lemma retryMeasure_le (q : Query.t A E) : retryMeasure q <= 2 * defaultRetry + 2.
  Proof.
    unfold retryMeasure. destruct (Query.retryer q) as [r|]; [| lia].
    destruct (phase r); lia.
  Qed.

  (** [useQuery] on a key that has an entry. *)
Lemma useQuery_existing (opts : UseQueryOptions) (cache : QueryCache A E) (q : Query.t A E) :
    cache !! hashKey (queryKey opts) = Some q ->
    useQuery opts cache =
      (createResult (mountEntry opts q), <[hashKey (queryKey opts) := mountEntry opts q]> cache).
  Proof. intros Hq. rewrite useQuery_eq, mount_eq. unfold build. by rewrite Hq. Qed.

  (** [invalidateQueries] leaves an entry whose key the filter does not
      match. *)
Lemma invalidateQueries_other (k : QueryKey) (h : string) (cache : QueryCache A E) (q : Query.t A E) :
    cache !! h = Some q -> partialMatchKey (Query.queryKey q) k = false ->
    invalidateQueries k cache !! h = Some q.
  Proof. intros Hq Hk. unfold invalidateQueries. rewrite lookup_fmap, Hq. simpl. by rewrite Hk. Qed.

Lemma run_app (evs1 evs2 : list Event) (cache : QueryCache A E) :
    run (evs1 ++ evs2) cache =
      match run evs1 cache with Some c => run evs2 c | None => None end.
  Proof.
    revert cache. induction evs1 as [|ev evs1 IH]; intros cache; [done |].
    simpl. destruct (exec ev cache); [apply IH | done].
  Qed.

  (** The entry of a reachable cache under the hash of [k] has key [k]. *)
Lemma reachable_entry_key (cache : QueryCache A E) (k : QueryKey) (q : Query.t A E) :
    reachable cache -> cache !! hashKey k = Some q -> Query.queryKey q = k.
  Proof.
    intros Hr Hq. destruct (reachable_wf _ Hr _ _ Hq) as [Hh Hw].
    apply hashKey_inj. rewrite <- (Query.wf_hash _ Hw). done.
  Qed.

  (** ** Idle entries have settled *)

  (** With [staleTime] 0 and the default [retryOnMount] and
      [refetchOnMount], every mount fetches. *)
Lemma shouldFetchOnMount_true (q : Query.t A E) : shouldFetchOnMount q = true.
  Proof.
    unfold shouldFetchOnMount, isStale, defaultRetryOnMount, defaultRefetchOnMount.
    destruct (data _); [by rewrite orb_true_r | by rewrite andb_false_r].
  Qed.

  (** After [Query.fetch] the entry is not idle. *)
Lemma fetch_active (b : bool) (q : Query.t A E) :
    fetchStatus (Query.state (Query.fetch b q)) <> Idle.
  Proof.
    unfold Query.fetch, Query.startFetch.
    repeat (case_decide || case_match); simpl; done.
  Qed.

Lemma continueFetch_settled (q : Query.t A E) :
    entry_settled q -> entry_settled (Query.continueFetch q).
  Proof. unfold Query.continueFetch. by repeat case_match; unfold entry_settled. Qed.

  (** Every operation on an entry keeps it settled: it ends a fetch with
      [success] or [error], keeps the state of a fetch in flight, or
      starts one. *)
Lemma entryOp_settled (ev : Event) (q q' : Query.t A E) :
    Query.query_wf q -> entry_settled q -> entryOp ev q = Some q' -> entry_settled q'.
  Proof.
    intros Hwf Hs. destruct ev as [|h|h res|h f| | |]; simpl; try done.
    - case_decide; intros [= <-]. exact Hs.
    - unfold Query.onResponse. destruct (Query.retryer q) as [r|] eqn:Hr; [| done].
      pose proof (Query.query_wf_retryer_active q r Hwf Hr) as Hf.
      repeat case_match; intros; simplify_eq; unfold entry_settled; cbn; done.
    - unfold Query.onRetryTimer. destruct (Query.retryer q) as [r|] eqn:Hr; [| done].
      pose proof (Query.query_wf_retryer_active q r Hwf Hr) as Hf.
      repeat case_match; intros; simplify_eq; unfold entry_settled; cbn; done.
  Qed.

Lemma updateEntry_settled (h : string) (ev : Event) (cache cache' : QueryCache A E) :
    client_wf cache -> client_settled cache -> updateEntry h (entryOp ev) cache = Some cache' ->
    client_settled cache'.
  Proof.
    intros Hwf Hs. unfold updateEntry. destruct (cache !! h) as [q|] eqn:Hq; [| done].
    destruct (entryOp _ q) as [q'|] eqn:Hop; [| done]. intros [= <-].
    apply map_Forall_insert_2; [| done].
    exact (entryOp_settled _ q q' (proj2 (Hwf _ _ Hq)) (Hs _ _ Hq) Hop).
  Qed.

Lemma exec_settled (ev : Event) (cache cache' : QueryCache A E) :
    client_wf cache -> client_settled cache -> exec ev cache = Some cache' ->
    client_settled cache'.
  Proof.
    intros Hwf Hs. destruct ev as [opts|h|h res|h f|h|k|]; simpl.
    - intros [= <-]. destruct (mount_entry opts cache Hwf) as (q & _ & _ & _ & ->).
      apply map_Forall_insert_2; [| done].
      unfold entry_settled, mountEntry. rewrite shouldFetchOnMount_true.
      intros Hi. by apply fetch_active in Hi.
    - exact (updateEntry_settled h (EvUnmount h) cache cache' Hwf Hs).
    - exact (updateEntry_settled h (EvRespond h res) cache cache' Hwf Hs).
    - exact (updateEntry_settled h (EvRetryTimer h f) cache cache' Hwf Hs).
    - destruct (cache !! h); [| done]. destruct (isRemovable _); intros [= <-]; [by apply map_Forall_delete | done].
    - intros [= <-] h q. unfold invalidateQueries. rewrite lookup_fmap.
      destruct (cache !! h) as [q0|] eqn:Hq; [| done]. intros [= <-].
      repeat case_match; try by apply Hs in Hq.
      + intros Hi. by apply fetch_active in Hi.
      + unfold entry_settled, Query.invalidate. destruct (isInvalidated _); [by apply (Hs h) | cbn].
        apply (Hs h q0 Hq).
    - intros [= <-] h q. unfold onFocus. rewrite lookup_fmap.
      destruct (cache !! h) as [q0|] eqn:Hq; [| done]. intros [= <-].
      unfold queryOnFocus. apply continueFetch_settled.
      destruct (shouldFetchOnWindowFocus q0); [intros Hi; by apply fetch_active in Hi |].
      by apply (Hs h).
  Qed.

Lemma reachable_settled (cache : QueryCache A E) : reachable cache -> client_settled cache.
  Proof.
    induction 1 as [|cache cache' ev Hr IH Hex]; [apply map_Forall_empty |].
    exact (exec_settled ev cache cache' (reachable_wf _ Hr) IH Hex).
  Qed.

  (** ** The window regaining the focus *)

  (** An idle entry with an observer is refetched: one more call, the
      data kept, the entry fetching. *)
Lemma queryOnFocus_idle (q : Query.t A E) :
    0 < Query.observers q -> fetchStatus (Query.state q) = Idle ->
    Query.fnCalls (queryOnFocus q) = S (Query.fnCalls q) /\
    Query.observers (queryOnFocus q) = Query.observers q /\
    data (Query.state (queryOnFocus q)) = data (Query.state q) /\
    fetchStatus (Query.state (queryOnFocus q)) = Fetching.
  Proof.
    intros Ho Hi. unfold queryOnFocus, shouldFetchOnWindowFocus, isStale.
    rewrite bool_decide_true by lia. rewrite orb_true_r. simpl.
    unfold Query.fetch, Query.startFetch. rewrite !decide_True by done. done.
  Qed.

Lemma onFocus_insert (h : string) (q : Query.t A E) (cache : QueryCache A E) :
    onFocus (<[h:=q]> cache) = <[h:=queryOnFocus q]> (onFocus cache).
  Proof. unfold onFocus. by rewrite fmap_insert. Qed.

  (** ** Every fetch ends with a settled result *)

  (** Whatever the network answers, the driving events bring any entry of
      a reachable cache to an idle, settled state. *)
Lemma reachable_eventually_settled (cache : QueryCache A E) (h : string) (q : Query.t A E)
    (out : nat -> Settled A E) :
    reachable cache -> cache !! h = Some q ->
    exists c q', run (settleEvents (2 * defaultRetry + 2) h out cache) cache = Some c /\
      reachable c /\ c !! h = Some q' /\ fetchStatus (Query.state q') = Idle /\
      (status (Query.state q') = Success \/ status (Query.state q') = Error) /\
      Query.fnCalls q' <= Query.fnCalls q + callsLeft q.
  Proof.
    intros Hr Hq.
    destruct (settleEvents_spec (2 * defaultRetry + 2) h out cache q (reachable_wf _ Hr) Hq
                (retryMeasure_le q)) as (_ & c & q' & Hrun & _ & Hq' & Hi & Hcalls).
    pose proof (run_reachable _ _ _ Hr Hrun) as Hc.
    exists c, q'. split_and!; try done.
    pose proof (reachable_settled c Hc h q' Hq' Hi).
    destruct (status (Query.state q')); [done | by right | by left].
  Qed.
End Client.

Arguments Event : clear implicits.
