(* ===== verification/Interleave.v ===== *)
(** * Interleaving the events of different entries

    The hooks' components render independently, so the events of their
    two cache entries (mounts, unmounts, responses, retry timers,
    garbage-collection timers) may arrive in any order.  Each such event
    reads and rewrites only the entry it is about: [exec] on an event whose
    [eventTarget] is [h] is [exec_at h g], a partial update of the cache at
    [h] computed from the entry at [h] alone ([exec_local]).  Two such
    updates at different hashes commute ([exec_at_commute]), so any
    interleaving of two event streams about two different entries runs to
    the same cache, or fails, exactly as running one stream after the other
    ([run_interleaving]).  The events that touch every entry
    ([invalidateQueries], the window focus) are not of this kind. *)

From S2P Require Import Prelude Api QueryKey QueryState Query Observer Client.

(** The interleavings of two lists: [zs] takes its elements from [xs] and
    [ys], each in its own order. *)
Inductive interleaving {X : Type} : list X -> list X -> list X -> Prop :=
  | il_nil : interleaving [] [] []
  | il_left x xs ys zs : interleaving xs ys zs -> interleaving (x :: xs) ys (x :: zs)
  | il_right y xs ys zs : interleaving xs ys zs -> interleaving xs (y :: ys) (y :: zs).

Section Interleave.
  Context {A E : Type}.
  Implicit Types cache : QueryCache A E.

  (** A partial update of the cache at [h], decided by the entry at [h]:
      [g] gives [None] when the event cannot happen, and otherwise the new
      entry at [h] ([None] to remove it). *)
Definition exec_at (h : string) (g : option (Query.t A E) -> option (option (Query.t A E)))
    cache : option (QueryCache A E) :=
    (fun o => partial_alter (fun _ => o) h cache) <$> g (cache !! h).

  (** The event is about the entry [h]. *)
Definition targets (h : string) (ev : Event A E) : Prop := eventTarget ev = Some h.

  (** An update through [updateEntry] is a partial update. *)
Lemma updateEntry_at (h : string) (f : Query.t A E -> option (Query.t A E)) cache :
    updateEntry h f cache =
      exec_at h (fun o => match o with Some q => Some <$> f q | None => None end) cache.
  Proof.
    unfold updateEntry, exec_at. destruct (cache !! h) as [q|]; [| done].
    by destruct (f q).
  Qed.

  (** Every event about one entry is a partial update at that entry. *)
Lemma exec_local (ev : Event A E) (h : string) :
    targets h ev -> exists g, forall cache, exec ev cache = exec_at h g cache.
  Proof.
    unfold targets. destruct ev as [opts|h0|h0 res|h0 f|h0|k|]; simpl; intros [= <-].
    - exists (fun o => Some (Some (mountEntry opts
        (default (Query.create (queryKey opts) (hashKey (queryKey opts)) (queryFn opts)) o)))).
      intros cache. rewrite mount_eq. unfold build, exec_at.
      destruct (cache !! hashKey (queryKey opts)); simpl; [done |].
      by rewrite insert_insert_eq.
    - eexists. intros cache. apply updateEntry_at.
    - eexists. intros cache. apply updateEntry_at.
    - eexists. intros cache. apply updateEntry_at.
    - exists (fun o => match o with
                       | Some q => Some (if isRemovable q then None else Some q)
                       | None => None
                       end).
      intros cache. unfold exec_at. destruct (cache !! h0) as [q|] eqn:Hq; [| done]. simpl.
      destruct (isRemovable q); [done |]. f_equal. symmetry. apply partial_alter_id. by rewrite Hq.
  Qed.

  (** Two partial updates at different hashes commute, failures included. *)
Lemma exec_at_commute (h1 h2 : string) g1 g2 cache :
    h1 <> h2 ->
    exec_at h1 g1 cache ≫= exec_at h2 g2 = exec_at h2 g2 cache ≫= exec_at h1 g1.
  Proof.
    intros Hne. unfold exec_at.
    destruct (g1 (cache !! h1)) as [o1|] eqn:H1, (g2 (cache !! h2)) as [o2|] eqn:H2; simpl;
      rewrite ?lookup_partial_alter_ne, ?H1, ?H2 by done; simpl; try done.
    f_equal. rewrite partial_alter_partial_alter. by rewrite decide_False.
  Qed.

  (** Two events about different entries commute inside a run. *)
Lemma run_swap (ev1 ev2 : Event A E) (h1 h2 : string) (rest : list (Event A E)) cache :
    targets h1 ev1 -> targets h2 ev2 -> h1 <> h2 ->
    run (ev1 :: ev2 :: rest) cache = run (ev2 :: ev1 :: rest) cache.
  Proof.
    intros T1 T2 Hne.
    destruct (exec_local ev1 h1 T1) as [g1 Hg1], (exec_local ev2 h2 T2) as [g2 Hg2].
    pose proof (exec_at_commute h1 h2 g1 g2 cache Hne) as Hc. simpl.
    rewrite !Hg1, !Hg2 in *.
    destruct (exec_at h1 g1 cache) as [c1|] eqn:E1, (exec_at h2 g2 cache) as [c2|] eqn:E2;
      simpl in Hc; rewrite ?Hg1, ?Hg2.
    - destruct (exec_at h2 g2 c1) as [c12|], (exec_at h1 g1 c2) as [c21|]; simplify_eq; done.
    - destruct (exec_at h2 g2 c1); simplify_eq; done.
    - destruct (exec_at h1 g1 c2); simplify_eq; done.
    - done.
  Qed.

  (** An event about [h2] moves past a stream of events about [h1]. *)
Lemma run_move (ev : Event A E) (h1 h2 : string) (xs rest : list (Event A E)) cache :
    targets h2 ev -> Forall (targets h1) xs -> h1 <> h2 ->
    run (ev :: xs ++ rest) cache = run (xs ++ ev :: rest) cache.
  Proof.
    intros Tev Hxs Hne. revert cache. induction Hxs as [|x xs Tx _ IH]; intros cache; [done |].
    simpl app. rewrite (run_swap ev x h2 h1) by done.
    simpl. destruct (exec x cache); [apply IH | done].
  Qed.

  (** Any interleaving of a stream about [h1] with a stream about [h2]
      runs as the first stream followed by the second. *)
Lemma run_interleaving (xs ys zs : list (Event A E)) (h1 h2 : string) cache :
    interleaving xs ys zs -> Forall (targets h1) xs -> Forall (targets h2) ys -> h1 <> h2 ->
    run zs cache = run (xs ++ ys) cache.
  Proof.
    intros Hil. revert cache. induction Hil as [|x xs ys zs _ IH|y xs ys zs _ IH];
      intros cache Hxs Hys Hne; [done | |].
    - inversion Hxs as [|? ? _ Hxs']; subst. simpl.
      destruct (exec x cache); [by apply IH | done].
    - inversion Hys as [|? ? Ty Hys']; subst.
      rewrite <- (run_move y h1 h2) by done. simpl.
      destruct (exec y cache); [by apply IH | done].
  Qed.
End Interleave.
