(* ===== verification/Trace.v ===== *)
(** * Runs of the cache seen through the entry contract

    [EntrySpec] states what one entry promises and proves that the
    detailed entry keeps it ([EntrySpec.qstar_refines]).  This file lifts
    the contract to the whole cache: every event of [Client.exec] moves
    each entry by a run of [EntrySpec.qstep] (a mount is [setOptions],
    [addObserver] and [fetch]; an invalidation is [invalidate] and maybe
    [fetch]; the focus is maybe [fetch], then [continue]; ...) that
    consumes exactly the responses addressed to that entry
    ([exec_entry]).  Hence, along any run from the empty cache, each
    entry's history since its creation is a run of the contract from the
    empty entry, which received exactly the answers addressed to it
    meanwhile and made exactly as many calls as its [LCall] labels
    ([run_history]). *)

From S2P Require Import Prelude Api QueryKey QueryState Query EntrySpec Observer Client.

Section Trace.
  Context {A E : Type}.

  (** The answers the network gave to the entry [h] along [evs]. *)
Definition answersTo (h : string) (evs : list (Event A E)) : list (Settled A E) :=
    omap (fun ev => match ev with
                    | EvRespond h' res => if bool_decide (h' = h) then Some res else None
                    | _ => None
                    end) evs.

  (** The history of the entry [q] of hash [h] along [evs]: since its
      creation (in the events [evs2]), a run of the contract from the
      empty entry that received the answers addressed to it and made its
      calls. *)
Definition entry_history (evs : list (Event A E)) (h : string) (q : Query.t A E) : Prop :=
    exists evs1 evs2 ls, evs = evs1 ++ evs2 /\
      EntrySpec.sstar h ls EntrySpec.specInit (EntrySpec.abs q) /\
      EntrySpec.answersOf ls = answersTo h evs2 /\
      Query.fnCalls q = sum_list (EntrySpec.labelCalls <$> ls).

Definition cache_history (evs : list (Event A E)) (cache : QueryCache A E) : Prop :=
    map_Forall (entry_history evs) cache.

  (** The runs of entry steps an event makes on the entry [h], existing
      or created by a mount. *)
Definition entry_moves (h : string) (ev : Event A E) (cache : QueryCache A E) (q' : Query.t A E) : Prop :=
    exists q ls, (cache !! h = Some q \/
                  (cache !! h = None /\ EntrySpec.abs q = EntrySpec.specInit /\
                   Query.fnCalls q = 0 /\ Query.query_wf q /\ Query.queryHash q = h)) /\
      EntrySpec.qstar ls q q' /\ EntrySpec.answersOf ls = answersTo h [ev].

Lemma answersTo_app (h : string) (evs1 evs2 : list (Event A E)) :
    answersTo h (evs1 ++ evs2) = answersTo h evs1 ++ answersTo h evs2.
  Proof. unfold answersTo. by rewrite omap_app. Qed.

  (** ** What one event does to one entry *)

Lemma qstar_one (l : EntrySpec.Label A E) (q q' : Query.t A E) :
    EntrySpec.qstep l q q' -> EntrySpec.qstar [l] q q'.
  Proof. intros H. apply (EntrySpec.qstar_step l [] q q'); [done | constructor]. Qed.

Lemma qstar_two (l1 l2 : EntrySpec.Label A E) (q q1 q' : Query.t A E) :
    EntrySpec.qstep l1 q q1 -> EntrySpec.qstep l2 q1 q' -> EntrySpec.qstar [l1; l2] q q'.
  Proof. intros H1 H2. apply (EntrySpec.qstar_step l1 _ q q1); [done | by apply qstar_one]. Qed.

  (** An entry the event leaves as it is, for an event not answering it. *)
Lemma entry_moves_same (h : string) (ev : Event A E) (cache : QueryCache A E) (q : Query.t A E) :
    answersTo h [ev] = [] -> cache !! h = Some q -> entry_moves h ev cache q.
  Proof. intros Ha Hq. exists q, []. split_and!; [by left | constructor | by rewrite Ha]. Qed.

Lemma answersTo_other (h : string) (ev : Event A E) :
    (forall h' res, ev = EvRespond h' res -> h' <> h) -> answersTo h [ev] = [].
  Proof.
    intros Hne. unfold answersTo. destruct ev as [| |h' res| | | |]; try done.
    simpl. rewrite bool_decide_false; [done | by apply (Hne h' res)].
  Qed.

Lemma answersOf_callLabel (q q' : Query.t A E) :
    EntrySpec.answersOf [EntrySpec.callLabel q q'] = [].
  Proof. unfold EntrySpec.callLabel. by case_match. Qed.

  (** A mount: [setOptions], [addObserver], then [fetch]. *)
Lemma mountEntry_qstar (opts : UseQueryOptions) (q : Query.t A E) :
    exists ls, EntrySpec.qstar ls q (mountEntry opts q) /\ EntrySpec.answersOf ls = [].
  Proof.
    unfold mountEntry. rewrite shouldFetchOnMount_true.
    set (q1 := Query.setOptions (queryFn opts) q). set (q2 := Query.addObserver q1).
    exists [EntrySpec.LTau; EntrySpec.LTau; EntrySpec.callLabel q2 (Query.fetch false q2)]. split.
    - apply (EntrySpec.qstar_step _ _ _ q1); [apply EntrySpec.q_options |].
      apply qstar_two with (q1 := q2); [apply EntrySpec.q_observe | apply EntrySpec.q_fetch].
    - change [EntrySpec.LTau; EntrySpec.LTau; EntrySpec.callLabel q2 (Query.fetch false q2)] with
        ([EntrySpec.LTau; EntrySpec.LTau] ++ [EntrySpec.callLabel q2 (Query.fetch false q2)]).
      by rewrite EntrySpec.answersOf_app, answersOf_callLabel.
  Qed.

  (** The focus: maybe [fetch], then [continue]. *)
Lemma queryOnFocus_qstar (q : Query.t A E) :
    exists ls, EntrySpec.qstar ls q (queryOnFocus q) /\ EntrySpec.answersOf ls = [].
  Proof.
    unfold queryOnFocus. destruct (shouldFetchOnWindowFocus q).
    - eexists. split; [apply qstar_two with (q1 := Query.fetch false q);
                       [apply EntrySpec.q_fetch | apply EntrySpec.q_continue] |].
      unfold EntrySpec.callLabel. simpl. by repeat case_match.
    - eexists. split; [apply qstar_one, EntrySpec.q_continue | apply answersOf_callLabel].
  Qed.

  (** An invalidation: [invalidate], then [fetch] when observed. *)
Lemma invalidateEntry_qstar (k : QueryKey) (q : Query.t A E) :
    exists ls, EntrySpec.qstar ls q
      (if partialMatchKey (Query.queryKey q) k then
         let q1 := Query.invalidate q in
         if bool_decide (0 < Query.observers q1) then Query.fetch true q1 else q1
       else q) /\ EntrySpec.answersOf ls = [].
  Proof.
    destruct (partialMatchKey _ _); [| exists []; split; [constructor | done]]. simpl.
    case_bool_decide.
    - eexists. split; [apply qstar_two with (q1 := Query.invalidate q);
                       [apply EntrySpec.q_invalidate | apply EntrySpec.q_fetch] |].
      unfold EntrySpec.callLabel. simpl. by repeat case_match.
    - eexists. split; [apply qstar_one, EntrySpec.q_invalidate | done].
  Qed.

  (** An event on one entry through [updateEntry]. *)
Lemma updateEntry_moves (h h0 : string) (ev : Event A E) (cache cache' : QueryCache A E) (q' : Query.t A E) :
    (forall q q1, entryOp ev q = Some q1 -> exists ls, EntrySpec.qstar ls q q1 /\
       EntrySpec.answersOf ls = answersTo h0 [ev]) ->
    (h <> h0 -> answersTo h [ev] = []) ->
    updateEntry h0 (entryOp ev) cache = Some cache' -> cache' !! h = Some q' ->
    entry_moves h ev cache q'.
  Proof.
    intros Hop Hother. unfold updateEntry.
    destruct (cache !! h0) as [q|] eqn:Hq; [| done].
    destruct (entryOp ev q) as [q1|] eqn:Hq1; [| done]. intros [= <-].
    destruct (decide (h = h0)) as [-> | Hne].
    - rewrite lookup_insert_eq. intros [= <-].
      destruct (Hop q q1 Hq1) as (ls & Hrun & Hans). exists q, ls. split_and!; [by left | done | done].
    - rewrite lookup_insert_ne by done. intros Hq'. by apply entry_moves_same; [apply Hother |].
  Qed.

  (** Every event moves each entry by a run of entry steps that consumes
      the answers addressed to it. *)
Lemma exec_entry (ev : Event A E) (cache cache' : QueryCache A E) (h : string) (q' : Query.t A E) :
    client_wf cache -> exec ev cache = Some cache' -> cache' !! h = Some q' ->
    entry_moves h ev cache q'.
  Proof.
    intros Hwf. destruct ev as [opts|h0|h0 res|h0 f|h0|k|].
    - intros [= <-]. destruct (mount_entry opts cache Hwf) as (q & _ & Hw & Hq & ->). simpl.
      destruct (decide (h = hashKey (queryKey opts))) as [-> | Hne].
      + rewrite lookup_insert_eq. intros [= <-].
        destruct (mountEntry_qstar opts q) as (ls & Hrun & Hans).
        exists q, ls. split_and!; [| done | done].
        destruct Hq as [Hq | [Hq ->]]; [by left | right]. split_and!; done.
      + rewrite lookup_insert_ne by done. by apply entry_moves_same.
    - apply updateEntry_moves; [| done].
      intros q q1. simpl. case_decide; [done |]. intros [= <-].
      exists [EntrySpec.LTau]. split; [apply qstar_one, EntrySpec.q_unobserve | done].
    - apply updateEntry_moves.
      + intros q q1 Hq1. exists [EntrySpec.LAnswer res].
        split; [by apply qstar_one, EntrySpec.q_respond |].
        simpl. by rewrite bool_decide_true.
      + intros Hne. apply answersTo_other. intros ? ? [= <- _]. done.
    - apply updateEntry_moves; [| done].
      intros q q1 Hq1. exists [EntrySpec.callLabel q q1].
      split; [exact (qstar_one _ _ _ (EntrySpec.q_timer f q q1 Hq1)) | apply answersOf_callLabel].
    - simpl. destruct (cache !! h0) as [q0|] eqn:Hq0; [| done].
      destruct (isRemovable q0); intros [= <-].
      + destruct (decide (h = h0)) as [-> | Hne]; [by rewrite lookup_delete_eq |].
        rewrite lookup_delete_ne by done. by apply entry_moves_same.
      + by apply entry_moves_same.
    - intros [= <-]. unfold invalidateQueries. rewrite lookup_fmap.
      destruct (cache !! h) as [q0|] eqn:Hq0; [| done]. intros [= <-].
      destruct (invalidateEntry_qstar k q0) as (ls & Hrun & Hans).
      exists q0, ls. split_and!; [by left | done | done].
    - intros [= <-]. unfold onFocus. rewrite lookup_fmap.
      destruct (cache !! h) as [q0|] eqn:Hq0; [| done]. intros [= <-].
      destruct (queryOnFocus_qstar q0) as (ls & Hrun & Hans).
      exists q0, ls. split_and!; [by left | done | done].
  Qed.

  (** ** Histories along a run *)

Lemma exec_history (evs : list (Event A E)) (ev : Event A E) (cache cache' : QueryCache A E) :
    client_wf cache -> cache_history evs cache -> exec ev cache = Some cache' ->
    cache_history (evs ++ [ev]) cache'.
  Proof.
    intros Hwf Hh Hex h q' Hq'.
    destruct (exec_entry ev cache cache' h q' Hwf Hex Hq') as (q & ls & Hcase & Hrun & Hans).
    assert (Hw : Query.query_wf q /\ Query.queryHash q = h).
    { destruct Hcase as [Hq | (_ & _ & _ & Hw & Hh')]; [| done].
      destruct (Hwf _ _ Hq) as [Hh' Hw]. done. }
    destruct Hw as [Hw Hhq].
    destruct (EntrySpec.qstar_refines ls q q' Hw Hrun) as [Hs Hc]. rewrite Hhq in Hs.
    destruct Hcase as [Hq | (_ & Hinit & Hc0 & _)].
    - destruct (Hh h q Hq) as (evs1 & evs2 & ls0 & -> & Hs0 & Hans0 & Hc0).
      exists evs1, (evs2 ++ [ev]), (ls0 ++ ls). split_and!.
      + by rewrite app_assoc.
      + by apply (EntrySpec.sstar_app _ _ _ _ (EntrySpec.abs q)).
      + by rewrite EntrySpec.answersOf_app, answersTo_app, Hans0, Hans.
      + rewrite EntrySpec.labelCalls_app. lia.
    - exists evs, [ev], ls. split_and!; [done | by rewrite <- Hinit | done | lia].
  Qed.

  (** Along any run from the empty cache, every entry has its history. *)
Lemma run_history (evs : list (Event A E)) (cache : QueryCache A E) :
    run evs ∅ = Some cache -> cache_history evs cache.
  Proof.
    assert (Hgen : forall evs0 c, reachable c -> cache_history evs0 c -> run evs c = Some cache ->
                     cache_history (evs0 ++ evs) cache).
    { induction evs as [|ev evs IH]; intros evs0 c Hr Hc; simpl.
      - intros [= <-]. by rewrite app_nil_r.
      - destruct (exec ev c) as [c'|] eqn:Hex; [| done]. intros Hrun'.
        rewrite cons_middle, app_assoc.
        apply (IH (evs0 ++ [ev]) c'); [by apply (reachable_step c c' ev) | | done].
        exact (exec_history evs0 ev c c' (reachable_wf _ Hr) Hc Hex). }
    intros Hrun. apply (Hgen [] ∅); [constructor | apply map_Forall_empty | done].
  Qed.
End Trace.
