(* ===== verification/Hooks.v ===== *)
(** * The hooks of [src/src/hooks/use-patient.ts]

    The source, line by line: two options objects, each with a literal
    query key and the imported [getPatientDashboardAppointment] as query
    function, and two zero-argument hooks returning [useQuery(options)].
    A hook call is a computation in the [ST] monad over the query cache:
    it returns the observer's result and leaves the cache changed.

    The theorems state what a component using the hooks observes:
    registration under the literal key with the API function itself, the
    unchanged pass-through of data and errors (after TanStack's default
    retries), deduplication of concurrent mounts, the independence of the
    two cache entries, the bounds every reachable cache satisfies, the
    result types, refetching and pausing around the window focus, the
    termination and eventual settlement of every fetch with at most four
    calls, and, through the entry contract of [EntrySpec] and [Trace],
    that each hook only ever shows what the API answered for its own
    key; through [Interleave], that the two hooks' events may arrive in
    any order; and that a failed refetch keeps the old data beside the
    error. *)

From S2P Require Import Prelude Api QueryKey QueryState Query EntrySpec Observer Client Interleave Trace.
From Stdlib Require Import String.

Local Open Scope string_scope.

(** Line 6: [queryKey: ["getPatientDashboardAppointment"]]. *)
Definition usePADashboard_queryKey : QueryKey := ["getPatientDashboardAppointment"].

(** Line 7: [queryFn: getPatientDashboardAppointment], the imported
    function itself. *)
Definition usePADashboard_queryFn : QueryFunction := getPatientDashboardAppointment.

(** Lines 5-8: the options object of [usePADashboard]. *)
Definition usePADashboard_options : UseQueryOptions :=
  {| queryKey := usePADashboard_queryKey; queryFn := usePADashboard_queryFn |}.

(** Lines 4-9: [export const usePADashboard = () => { return useQuery({...}); };] *)
Definition usePADashboard {A E : Type} : ST (QueryCache A E) (Result.t A E) :=
  useQuery usePADashboard_options.

(** Line 13: [queryKey: ["DADashboard"]]. *)
Definition useDADashboard_queryKey : QueryKey := ["DADashboard"].

(** Line 14: [queryFn: getPatientDashboardAppointment]. *)
Definition useDADashboard_queryFn : QueryFunction := getPatientDashboardAppointment.

(** Lines 12-15: the options object of [useDADashboard]. *)
Definition useDADashboard_options : UseQueryOptions :=
  {| queryKey := useDADashboard_queryKey; queryFn := useDADashboard_queryFn |}.

(** Lines 11-16: [export const useDADashboard = () => { return useQuery({...}); };] *)
Definition useDADashboard {A E : Type} : ST (QueryCache A E) (Result.t A E) :=
  useQuery useDADashboard_options.

Section Hooks.
  Context {A E : Type}.
  Implicit Types cache : QueryCache A E.

  (** ** Registration *)

  (** What one [useQuery] call does on a key with no entry: a loading
      result, and the old cache with exactly one entry added under the
      key's hash, holding the options' key and query function, one
      observer and one call of the query function. *)
Lemma useQuery_registers (opts : UseQueryOptions) cache :
    cache !! hashKey (queryKey opts) = None ->
    let '(res, cache') := useQuery opts cache in
    Result.isLoading res = true /\ Result.data res = None /\ Result.error res = None /\
    Result.status res = Pending /\
    exists q, cache' = <[hashKey (queryKey opts) := q]> cache /\
      Query.queryKey q = queryKey opts /\ Query.queryFn q = queryFn opts /\
      Query.observers q = 1 /\ Query.fnCalls q = 1.
  Proof.
    intros Hnone. rewrite (useQuery_fresh opts cache Hnone).
    split_and!; try done. by eexists.
  Qed.

  (** [C1] On a cache with no entry for its key, [usePADashboard] returns a
      loading result with neither data nor error, and registers exactly one
      cache entry, under the hash of ["getPatientDashboardAppointment"],
      whose query function is [getPatientDashboardAppointment] itself; that
      function is called exactly once. *)
Theorem usePADashboard_registers cache :
    cache !! hashKey ["getPatientDashboardAppointment"] = None ->
    let '(res, cache') := usePADashboard cache in
    Result.isLoading res = true /\ Result.data res = None /\ Result.error res = None /\
    Result.status res = Pending /\
    exists q, cache' = <[hashKey ["getPatientDashboardAppointment"] := q]> cache /\
      Query.queryKey q = ["getPatientDashboardAppointment"] /\
      Query.queryFn q = getPatientDashboardAppointment /\
      Query.observers q = 1 /\ Query.fnCalls q = 1.
  Proof. apply (useQuery_registers usePADashboard_options). Qed.

  (** [C2] On a cache with no entry for its key, [useDADashboard] returns a
      loading result and registers exactly one cache entry, under the hash
      of ["DADashboard"], whose query function is the same
      [getPatientDashboardAppointment]; that function is called once. *)
Theorem useDADashboard_registers cache :
    cache !! hashKey ["DADashboard"] = None ->
    let '(res, cache') := useDADashboard cache in
    Result.isLoading res = true /\ Result.data res = None /\ Result.error res = None /\
    Result.status res = Pending /\
    exists q, cache' = <[hashKey ["DADashboard"] := q]> cache /\
      Query.queryKey q = ["DADashboard"] /\
      Query.queryFn q = getPatientDashboardAppointment /\
      Query.observers q = 1 /\ Query.fnCalls q = 1.
  Proof. apply (useQuery_registers useDADashboard_options). Qed.

  (** ** Independence of the two entries *)

Lemma hooks_hash_ne : hashKey useDADashboard_queryKey <> hashKey usePADashboard_queryKey.
  Proof. intros H. apply hashKey_inj in H. discriminate. Qed.

  (** [C3] The two hooks never share a cache entry: any event on the entry
      of [useDADashboard] (its mount, unmount, a response to its fetch, its
      retry or garbage-collection timer) leaves the entry of
      [usePADashboard] exactly as it was, and conversely. *)
Theorem hooks_independent (ev : Event A E) cache cache' :
    exec ev cache = Some cache' ->
    (eventTarget ev = Some (hashKey useDADashboard_queryKey) ->
       cache' !! hashKey usePADashboard_queryKey = cache !! hashKey usePADashboard_queryKey) /\
    (eventTarget ev = Some (hashKey usePADashboard_queryKey) ->
       cache' !! hashKey useDADashboard_queryKey = cache !! hashKey useDADashboard_queryKey).
  Proof.
    intros Hex. pose proof hooks_hash_ne.
    split; intros Ht; eapply exec_frame; eauto.
  Qed.
  (** ** Pass-through of the response *)

  (** The response to a running attempt of an existing entry. *)
Lemma respond_running (h : string) cache (q : Query.t A E) (r : Retryer E) (res : Settled A E) :
    cache !! h = Some q -> Query.retryer q = Some r -> phase r = Running ->
    exists q', Query.onResponse res q = Some q' /\
      exec (EvRespond h res) cache = Some (<[h:=q']> cache).
  Proof.
    intros Hq Hr Hph.
    assert (Hs : exists q', Query.onResponse res q = Some q').
    { unfold Query.onResponse. rewrite Hr, Hph. eauto. }
    destruct Hs as [q' Hq']. exists q'. split; [done |].
    simpl. unfold updateEntry. rewrite Hq. simpl. by rewrite Hq'.
  Qed.

  (** [C4] Whatever the entry of [usePADashboard] held before (no data,
      older data, an older error), when the running call of
      [getPatientDashboardAppointment] resolves with [v], the hook shows
      [data = v] exactly, no error, status [success], and it is no longer
      loading or fetching. *)
Theorem usePADashboard_resolves cache (q : Query.t A E) (r : Retryer E) (v : A) :
    cache !! hashKey usePADashboard_queryKey = Some q ->
    Query.retryer q = Some r -> phase r = Running ->
    exists cache' res,
      exec (EvRespond (hashKey usePADashboard_queryKey) (Fulfilled (Some v))) cache = Some cache' /\
      currentResult (hashKey usePADashboard_queryKey) cache' = Some res /\
      Result.data res = Some v /\ Result.error res = None /\ Result.status res = Success /\
      Result.isLoading res = false /\ Result.isFetching res = false.
  Proof.
    intros Hq Hr Hph.
    destruct (respond_running _ cache q r (Fulfilled (Some v)) Hq Hr Hph) as (q' & Hq' & Hex).
    exists (<[hashKey usePADashboard_queryKey:=q']> cache), (createResult q'). rewrite currentResult_insert.
    split_and!; try done; revert Hq'; unfold Query.onResponse; rewrite Hr, Hph;
      intros [= <-]; done.
  Qed.

  (** [C5] When the running call resolves with [undefined], the hook shows
      no new data but an error: TanStack's [UndefinedData] error for the
      entry's hash, status [error], the old data kept. *)
Theorem usePADashboard_undefined_is_error cache (q : Query.t A E) (r : Retryer E) :
    reachable cache ->
    cache !! hashKey usePADashboard_queryKey = Some q ->
    Query.retryer q = Some r -> phase r = Running ->
    exists cache' res,
      exec (EvRespond (hashKey usePADashboard_queryKey) (Fulfilled None)) cache = Some cache' /\
      currentResult (hashKey usePADashboard_queryKey) cache' = Some res /\
      Result.error res = Some (UndefinedData (hashKey usePADashboard_queryKey)) /\
      Result.data res = data (Query.state q) /\ Result.status res = Error /\
      Result.isFetching res = false.
  Proof.
    intros Hreach Hq Hr Hph.
    destruct (respond_running _ cache q r (Fulfilled None) Hq Hr Hph) as (q' & Hq' & Hex).
    assert (Hh : Query.queryHash q = hashKey usePADashboard_queryKey).
    { by destruct (reachable_wf cache Hreach _ _ Hq). }
    exists (<[hashKey usePADashboard_queryKey:=q']> cache), (createResult q'). rewrite currentResult_insert.
    split_and!; try done; revert Hq'; unfold Query.onResponse; rewrite Hr, Hph;
      intros [= <-]; try done. cbn. by rewrite Hh.
  Qed.

  (** ** Retries before an error is shown *)

  (** [C6] On a cache with no entry for its key, after [useDADashboard]
      mounts, a rejection [e1] of the call is not shown: the hook is still
      loading with no error, one failure counted.  Only the fourth
      consecutive rejection (TanStack's default [retry: 3], which the
      options object does not override) is shown: [error = e4] unchanged,
      no data, status [error], four failures, four calls of
      [getPatientDashboardAppointment], and no further retry. *)
Theorem useDADashboard_rejects_after_retries cache (e1 e2 e3 e4 : E) :
    cache !! hashKey ["DADashboard"] = None ->
    let h := hashKey ["DADashboard"] in
    let cache1 := (useDADashboard cache).2 in
    let evs := [EvRespond h (Rejected e1); EvRetryTimer h true; EvRespond h (Rejected e2);
                EvRetryTimer h true; EvRespond h (Rejected e3); EvRetryTimer h true;
                EvRespond h (Rejected e4)] in
    (exists c res, run [EvRespond h (Rejected e1)] cache1 = Some c /\
       currentResult h c = Some res /\
       Result.error res = None /\ Result.status res = Pending /\ Result.isLoading res = true /\
       Result.failureCount res = 1 /\ Result.failureReason res = Some (ApiError e1)) /\
    (exists c res, run evs cache1 = Some c /\ currentResult h c = Some res /\
       Result.error res = Some (ApiError e4) /\ Result.data res = None /\
       Result.status res = Error /\ Result.isLoading res = false /\
       Result.failureCount res = 4 /\ Query.fnCalls <$> c !! h = Some 4 /\
       run (evs ++ [EvRetryTimer h true]) cache1 = None).
  Proof.
    intros Hnone h cache1 evs. subst cache1.
    unfold useDADashboard. rewrite (useQuery_fresh useDADashboard_options cache Hnone). cbn [snd].
    split.
    - rewrite run_entry by reflexivity. simpl.
      eexists _, _. rewrite currentResult_insert. by split_and!.
    - rewrite !run_entry by reflexivity. simpl.
      eexists _, _. rewrite currentResult_insert. split_and!; try done.
      by rewrite lookup_insert_eq.
  Qed.
  (** ** Deduplication *)

  (** [C7] A component mounting [usePADashboard] while the entry's fetch
      is in flight (another component mounted it first) joins that fetch:
      [getPatientDashboardAppointment] is not called again, the entry's
      state is unchanged, it has one more observer, and the new component
      sees the same result as the others. *)
Theorem usePADashboard_dedup cache (q : Query.t A E) :
    reachable cache ->
    cache !! hashKey usePADashboard_queryKey = Some q ->
    fetchStatus (Query.state q) = Fetching ->
    exists q', (usePADashboard cache).2 !! hashKey usePADashboard_queryKey = Some q' /\
      Query.fnCalls q' = Query.fnCalls q /\ Query.state q' = Query.state q /\
      Query.observers q' = S (Query.observers q) /\
      (usePADashboard cache).1 = createResult q.
  Proof.
    intros Hr Hq Hf.
    destruct (mount_entry usePADashboard_options cache (reachable_wf _ Hr))
      as (q0 & _ & Hw & [Hq0 | [Hq0 _]] & Hm); simpl in Hq0; rewrite Hq in Hq0; [| done].
    injection Hq0 as <-.
    destruct (mountEntry_fetching usePADashboard_options q Hw Hf) as (Hs & Hc & Ho).
    unfold usePADashboard. rewrite useQuery_eq, Hm. simpl.
    exists (mountEntry usePADashboard_options q).
    split_and!; [by rewrite lookup_insert_eq | done | done | done |].
    by apply createResult_state.
  Qed.

  (** ** Bounds *)

  (** [C9] On every reachable cache, the result of either hook counts at
      most [defaultRetry + 1 = 4] failures, and at most [defaultRetry = 3]
      while a fetch is in flight. *)
Theorem hooks_failureCount_bound cache (res : Result.t A E) :
    reachable cache ->
    res = (usePADashboard cache).1 \/ res = (useDADashboard cache).1 ->
    Result.failureCount res <= S defaultRetry /\
    (Result.isFetching res = true -> Result.failureCount res <= defaultRetry).
  Proof.
    intros Hr Hres.
    assert (Hb : forall opts, Result.failureCount (useQuery opts cache).1 <= S defaultRetry /\
      (Result.isFetching (useQuery opts cache).1 = true ->
       Result.failureCount (useQuery opts cache).1 <= defaultRetry)).
    { intros opts. destruct (useQuery_wf opts cache Hr) as (q & Hw & -> & _). cbn.
      split; [apply (Query.wf_count _ Hw) |].
      intros Hf. apply bool_decide_eq_true in Hf. apply (Query.wf_count_fetching _ Hw). by rewrite Hf. }
    by destruct Hres as [-> | ->]; apply Hb.
  Qed.
  (** ** Unmounting during a retry *)

  (** [C11] If the only component using [useDADashboard] unmounts while a
      retry is pending, the retry is cancelled: when the retry delay ends
      the last rejection [e1] is recorded as the entry's error and
      [getPatientDashboardAppointment] is not called again.  If a component
      mounts the hook again before the delay ends, the retry goes ahead: a
      second call, still loading, no error shown. *)
Theorem useDADashboard_unmount_cancels_retry cache (e1 : E) :
    cache !! hashKey ["DADashboard"] = None ->
    let h := hashKey ["DADashboard"] in
    let cache1 := (useDADashboard cache).2 in
    (exists c res, run [EvRespond h (Rejected e1); EvUnmount h; EvRetryTimer h true] cache1 = Some c /\
       currentResult h c = Some res /\
       Result.error res = Some (ApiError e1) /\ Result.status res = Error /\
       Result.isFetching res = false /\ Query.fnCalls <$> c !! h = Some 1) /\
    (exists c, run [EvRespond h (Rejected e1); EvUnmount h] cache1 = Some c /\
       exists c' res, run [EvRetryTimer h true] (useDADashboard c).2 = Some c' /\
         currentResult h c' = Some res /\
         Result.error res = None /\ Result.isLoading res = true /\
         Query.fnCalls <$> c' !! h = Some 2).
  Proof.
    intros Hnone h cache1. subst cache1.
    unfold useDADashboard. rewrite (useQuery_fresh useDADashboard_options cache Hnone). cbn [snd].
    split.
    - rewrite run_entry by reflexivity. simpl.
      eexists _, _. rewrite currentResult_insert. split_and!; try done.
      by rewrite lookup_insert_eq.
    - eexists. split; [rewrite run_entry by reflexivity; simpl; reflexivity |].
      rewrite (useQuery_existing useDADashboard_options _ _ (lookup_insert_eq _ _ _)).
      cbn [snd]. rewrite insert_insert_eq, run_entry by reflexivity. simpl.
      eexists _, _. rewrite currentResult_insert. split_and!; try done.
      by rewrite lookup_insert_eq.
  Qed.

  (** ** Garbage collection *)

  (** [C12] While a component has [usePADashboard] mounted, the entry it
      uses is never collected, also once its fetch has ended: after the
      hook mounts on a cache without its entry and the call resolves with
      [v], the entry is idle and shows [v], and the garbage-collection
      timer of the entry leaves the cache unchanged (its observer keeps
      it; compare the next theorem, where the observer has left). *)
Theorem usePADashboard_entry_not_collected cache (v : A) :
    cache !! hashKey usePADashboard_queryKey = None ->
    let h := hashKey usePADashboard_queryKey in
    exists c res, run [EvRespond h (Fulfilled (Some v))] (usePADashboard cache).2 = Some c /\
      currentResult h c = Some res /\
      Result.data res = Some v /\ Result.isFetching res = false /\
      exec (EvGcTimer h) c = Some c.
  Proof.
    intros Hnone h. unfold usePADashboard.
    rewrite (useQuery_fresh usePADashboard_options cache Hnone). cbn [snd].
    rewrite run_entry by reflexivity. simpl.
    eexists _, _. split; [reflexivity |]. rewrite currentResult_insert.
    split_and!; try done. cbn [exec]. by rewrite lookup_insert_eq.
  Qed.

  (** [C13] Once the last component using [usePADashboard] has unmounted
      and its fetch has ended, the garbage-collection timer drops the
      entry with its data: a component mounting the hook afterwards starts
      from nothing (loading, no data) although the data [v] was fetched. *)
Theorem usePADashboard_gc_drops_data cache (v : A) :
    cache !! hashKey usePADashboard_queryKey = None ->
    let h := hashKey usePADashboard_queryKey in
    exists c, run [EvRespond h (Fulfilled (Some v)); EvUnmount h; EvGcTimer h]
                (usePADashboard cache).2 = Some c /\
      c !! h = None /\
      Result.data (usePADashboard c).1 = None /\ Result.isLoading (usePADashboard c).1 = true.
  Proof.
    intros Hnone h. unfold usePADashboard.
    rewrite (useQuery_fresh usePADashboard_options cache Hnone). cbn [snd].
    change [EvRespond h (Fulfilled (Some v)); EvUnmount h; EvGcTimer h] with
      ([EvRespond h (Fulfilled (Some v)); EvUnmount h] ++ [EvGcTimer (A := A) (E := E) h])%list.
    rewrite run_app, run_entry by reflexivity. simpl.
    rewrite lookup_insert_eq. simpl. rewrite delete_insert_eq.
    eexists. split; [done |].
    assert (Hd : delete (hashKey usePADashboard_queryKey) cache
                   !! hashKey (queryKey usePADashboard_options) = None)
      by apply lookup_delete_eq.
    rewrite (useQuery_fresh _ _ Hd). split_and!; [apply lookup_delete_eq | done | done].
  Qed.
  (** ** Invalidation *)

  (** [C14] Invalidating the queries of [useDADashboard]
      ([invalidateQueries({ queryKey: ["DADashboard"] })]) leaves the entry
      of [usePADashboard] untouched, although both fetch the same data. *)
Theorem useDADashboard_invalidation_spares_PA cache (q : Query.t A E) :
    reachable cache ->
    cache !! hashKey usePADashboard_queryKey = Some q ->
    invalidateQueries useDADashboard_queryKey cache !! hashKey usePADashboard_queryKey = Some q.
  Proof.
    intros Hr Hq. apply invalidateQueries_other; [done |].
    by rewrite (reachable_entry_key _ _ _ Hr Hq).
  Qed.

  (** [C15] With [usePADashboard] mounted and its data [v] fetched,
      invalidating its key refetches: a second call of
      [getPatientDashboardAppointment], the hook refetching ([isRefetching])
      while still showing [v] with status [success]. *)
Theorem usePADashboard_invalidation_refetches cache (v : A) :
    cache !! hashKey usePADashboard_queryKey = None ->
    let h := hashKey usePADashboard_queryKey in
    exists c res, run [EvRespond h (Fulfilled (Some v)); EvInvalidate usePADashboard_queryKey]
                    (usePADashboard cache).2 = Some c /\
      currentResult h c = Some res /\
      Result.isRefetching res = true /\ Result.data res = Some v /\
      Result.status res = Success /\ Query.fnCalls <$> c !! h = Some 2.
  Proof.
    intros Hnone h. unfold usePADashboard.
    rewrite (useQuery_fresh usePADashboard_options cache Hnone). cbn [snd].
    change [EvRespond h (Fulfilled (Some v)); EvInvalidate usePADashboard_queryKey] with
      ([EvRespond h (Fulfilled (Some v))] ++ [EvInvalidate (A := A) (E := E) usePADashboard_queryKey])%list.
    rewrite run_app, run_entry by reflexivity. simpl.
    eexists _, _. split; [reflexivity |].
    unfold currentResult, invalidateQueries. rewrite lookup_fmap, lookup_insert_eq.
    split; [reflexivity |]. split_and!; try done.
  Qed.


  (** ** The result types *)

  (** [C16] Every result a component reads from either hook on a reachable
      cache (the one [useQuery] returns, or the one it re-reads later for
      the hook's entry) is a value of TanStack's [QueryObserverResult]
      union, of the member [resultType] narrows to: with [status]
      [success] the data is defined and the error is not, with [error]
      the error is defined, with [pending] neither is. *)
Theorem hooks_result_typed cache (res : Result.t A E) :
    reachable cache ->
    res = (usePADashboard cache).1 \/ res = (useDADashboard cache).1 \/
    currentResult (hashKey usePADashboard_queryKey) cache = Some res \/
    currentResult (hashKey useDADashboard_queryKey) cache = Some res ->
    hasType (resultType res) res = true.
  Proof.
    intros Hr Hres.
    assert (Hc : forall h, currentResult h cache = Some res -> hasType (resultType res) res = true).
    { intros h. unfold currentResult. destruct (cache !! h) as [q|] eqn:Hq; [| done].
      intros [= <-]. apply createResult_hasType, Query.wf_state.
      exact (proj2 (reachable_wf _ Hr _ _ Hq)). }
    assert (Hu : forall opts, hasType (resultType (useQuery opts cache).1) (useQuery opts cache).1 = true).
    { intros opts. destruct (useQuery_wf opts cache Hr) as (q & Hw & -> & _).
      by apply createResult_hasType, Query.wf_state. }
    destruct Hres as [-> | [-> | [Hres | Hres]]]; [apply Hu | apply Hu | by eapply Hc ..].
  Qed.

  (** ** The window regaining the focus *)

  (** [C17] When the window regains the focus while both hooks are
      mounted and idle, TanStack refetches both entries
      ([refetchOnWindowFocus] defaults to [true] and the data is stale at
      once): [getPatientDashboardAppointment] is called twice for the same
      data, once per key; both hooks show their old data while
      fetching. *)
Theorem hooks_focus_refetches_both cache (qPA qDA : Query.t A E) :
    cache !! hashKey usePADashboard_queryKey = Some qPA ->
    cache !! hashKey useDADashboard_queryKey = Some qDA ->
    0 < Query.observers qPA -> 0 < Query.observers qDA ->
    fetchStatus (Query.state qPA) = Idle -> fetchStatus (Query.state qDA) = Idle ->
    exists c qPA' qDA', exec EvFocus cache = Some c /\
      c !! hashKey usePADashboard_queryKey = Some qPA' /\
      c !! hashKey useDADashboard_queryKey = Some qDA' /\
      Query.fnCalls qPA' = S (Query.fnCalls qPA) /\ Query.fnCalls qDA' = S (Query.fnCalls qDA) /\
      Result.isFetching (createResult qPA') = true /\ Result.isFetching (createResult qDA') = true /\
      Result.data (createResult qPA') = data (Query.state qPA) /\
      Result.data (createResult qDA') = data (Query.state qDA).
  Proof.
    intros HqP HqD HoP HoD HiP HiD.
    destruct (queryOnFocus_idle qPA HoP HiP) as (HcP & _ & HdP & HfP).
    destruct (queryOnFocus_idle qDA HoD HiD) as (HcD & _ & HdD & HfD).
    exists (onFocus cache), (queryOnFocus qPA), (queryOnFocus qDA).
    unfold onFocus. rewrite !lookup_fmap, HqP, HqD. cbn.
    split_and!; try done; by apply bool_decide_eq_true.
  Qed.

  (** [C18] A retry that falls due while the window is unfocused waits for
      the focus ([canContinue()] is false): after a rejection [e1] of the
      call behind [useDADashboard], the retry timer firing unfocused leaves
      the hook paused ([isPaused], [fetchStatus] [paused], not loading) with
      no error and no new call; when the window regains the focus the retry
      runs (a second call, loading again).  If the component unmounts
      while the retry waits, regaining the focus records [e1] as the
      error without calling again. *)
Theorem useDADashboard_retry_waits_for_focus cache (e1 : E) :
    cache !! hashKey ["DADashboard"] = None ->
    let h := hashKey ["DADashboard"] in
    let cache1 := (useDADashboard cache).2 in
    (exists c res, run [EvRespond h (Rejected e1); EvRetryTimer h false] cache1 = Some c /\
       currentResult h c = Some res /\
       Result.isPaused res = true /\ Result.fetchStatus res = Paused /\
       Result.isLoading res = false /\ Result.error res = None /\
       Query.fnCalls <$> c !! h = Some 1 /\
       exists c' res', exec EvFocus c = Some c' /\ currentResult h c' = Some res' /\
         Result.isPaused res' = false /\ Result.isLoading res' = true /\
         Query.fnCalls <$> c' !! h = Some 2) /\
    (exists c res, run [EvRespond h (Rejected e1); EvRetryTimer h false; EvUnmount h; EvFocus]
                     cache1 = Some c /\
       currentResult h c = Some res /\
       Result.error res = Some (ApiError e1) /\ Result.status res = Error /\
       Result.isFetching res = false /\ Result.isPaused res = false /\
       Query.fnCalls <$> c !! h = Some 1).
  Proof.
    intros Hnone h cache1. subst cache1.
    unfold useDADashboard. rewrite (useQuery_fresh useDADashboard_options cache Hnone). cbn [snd].
    split.
    - rewrite run_entry by reflexivity. simpl.
      eexists _, _. rewrite currentResult_insert. split_and!; try done; [by rewrite lookup_insert_eq |].
      simpl. rewrite onFocus_insert. eexists _, _. split; [reflexivity |]. rewrite currentResult_insert.
      split_and!; try done. by rewrite lookup_insert_eq.
    - change [EvRespond h (Rejected e1); EvRetryTimer h false; EvUnmount h; EvFocus] with
        ([EvRespond h (Rejected e1); EvRetryTimer h false; EvUnmount h] ++ [EvFocus (A := A) (E := E)])%list.
      rewrite run_app, run_entry by reflexivity. simpl. rewrite onFocus_insert.
      eexists _, _. split; [reflexivity |]. rewrite currentResult_insert.
      split_and!; try done. by rewrite lookup_insert_eq.
  Qed.

  (** ** Every fetch ends *)

  (** [C19] After [useDADashboard] mounts on a reachable cache, whatever
      the network answers, the hook eventually shows a settled result:
      the driving events (responses, retry timers with the window focused,
      the focus when a retry waits for it) bring it to a result that is
      neither fetching nor paused, with status [success] or [error], never
      left [pending]. *)
Theorem useDADashboard_eventually_settled cache (out : nat -> Settled A E) :
    reachable cache ->
    let h := hashKey useDADashboard_queryKey in
    let cache1 := (useDADashboard cache).2 in
    exists c res, run (settleEvents (2 * defaultRetry + 2) h out cache1) cache1 = Some c /\
      currentResult h c = Some res /\
      Result.isFetching res = false /\ Result.isPaused res = false /\
      (Result.status res = Success \/ Result.status res = Error).
  Proof.
    intros Hr h cache1.
    destruct (useQuery_wf useDADashboard_options cache Hr) as (q0 & _ & _ & Hq0).
    destruct (reachable_eventually_settled cache1 h q0 out (useQuery_reachable _ _ Hr) Hq0)
      as (c & q & Hrun & _ & Hq & Hi & Hst & _).
    exists c, (createResult q). unfold currentResult. rewrite Hq.
    split_and!; [done | done | | | done]; cbn; by rewrite Hi.
  Qed.

  (** ** What the hooks show comes from their own answers *)

  (** [C20] Refinement of the entry contract by the hooks' entries: along
      any run of events from the empty cache, the entry of either hook has
      behaved, since it was created (in the last events [evs2]), as a run
      of the abstract contract [EntrySpec.sstep] from the empty entry to
      what it now shows; that run received exactly the responses addressed
      to the hook's entry in [evs2], and [getPatientDashboardAppointment]
      was called for it exactly once per call step of the contract. *)
Theorem hooks_entries_refine_contract (evs : list (Event A E)) (c : QueryCache A E) :
    run evs ∅ = Some c ->
    forall h q, h = hashKey usePADashboard_queryKey \/ h = hashKey useDADashboard_queryKey ->
    c !! h = Some q ->
    exists evs1 evs2 ls, evs = (evs1 ++ evs2)%list /\
      EntrySpec.sstar h ls EntrySpec.specInit (EntrySpec.abs q) /\
      EntrySpec.answersOf ls = answersTo h evs2 /\
      Query.fnCalls q = sum_list (EntrySpec.labelCalls <$> ls).
  Proof. intros Hrun h q _ Hq. exact (run_history evs c Hrun h q Hq). Qed.

  (** [C21] Along any run of events from the empty cache, the data either
      hook shows is a value [getPatientDashboardAppointment] resolved with
      in a response to that hook's own entry, and an API error it shows is
      a rejection of a call for that entry: neither hook ever shows what
      was fetched for the other key. *)
Theorem hooks_show_only_own_answers (evs : list (Event A E)) (c : QueryCache A E) :
    run evs ∅ = Some c ->
    forall h res, h = hashKey usePADashboard_queryKey \/ h = hashKey useDADashboard_queryKey ->
    currentResult h c = Some res ->
    (forall v, Result.data res = Some v -> Fulfilled (Some v) ∈ answersTo h evs) /\
    (forall e, Result.error res = Some (ApiError e) -> Rejected e ∈ answersTo h evs).
  Proof.
    intros Hrun h res _. unfold currentResult.
    destruct (c !! h) as [q|] eqn:Hq; [| done]. intros [= <-].
    destruct (run_history evs c Hrun h q Hq) as (evs1 & evs2 & ls & -> & Hs & Hans & _).
    pose proof (EntrySpec.sstar_from h ls _ _ [] Hs (EntrySpec.specInit_from [])) as (Hd & He & _).
    rewrite app_nil_r, Hans in Hd, He. rewrite answersTo_app.
    split; [intros v Hv | intros e He']; apply elem_of_app; right; [by apply Hd | by apply He].
  Qed.


  (** ** Calls per fetch *)

  (** [C22] On a reachable cache with no entry for its key, the fetch a
      mount of [useDADashboard] starts calls [getPatientDashboardAppointment]
      at most [1 + defaultRetry = 4] times in all, whatever the network
      answers: after the driving events (responses, retry timers, the
      focus) the entry is idle and its call count is at most 4. *)
Theorem useDADashboard_calls_bound cache (out : nat -> Settled A E) :
    reachable cache -> cache !! hashKey useDADashboard_queryKey = None ->
    let h := hashKey useDADashboard_queryKey in
    let cache1 := (useDADashboard cache).2 in
    exists c q, run (settleEvents (2 * defaultRetry + 2) h out cache1) cache1 = Some c /\
      c !! h = Some q /\ fetchStatus (Query.state q) = Idle /\
      Query.fnCalls q <= S defaultRetry.
  Proof.
    intros Hr Hnone h cache1.
    assert (Hq0 : cache1 !! h = Some (mountEntry useDADashboard_options
      (Query.create (queryKey useDADashboard_options) (hashKey (queryKey useDADashboard_options))
         (queryFn useDADashboard_options)))).
    { subst cache1. unfold useDADashboard. rewrite (useQuery_fresh useDADashboard_options cache Hnone).
      apply lookup_insert_eq. }
    destruct (reachable_eventually_settled cache1 h _ out (useQuery_reachable _ _ Hr) Hq0)
      as (c & q & Hrun & _ & Hq & Hi & _ & Hcalls).
    exists c, q. split_and!; [done | done | done |]. rewrite Hcalls. reflexivity.
  Qed.

  (** ** Interleaving the two hooks' events *)

  (** [C23] The components using the two hooks render independently, so
      the events of the two entries (mounts, unmounts, responses, retry
      and garbage-collection timers) may interleave in any order: any
      interleaving [zs] of a stream [xs] of events about the entry of
      [usePADashboard] with a stream [ys] about the entry of
      [useDADashboard] runs to the same cache, or fails, exactly as [xs]
      followed by [ys]. *)
Theorem hooks_interleavings_agree (xs ys zs : list (Event A E)) cache :
    interleaving xs ys zs ->
    Forall (targets (hashKey usePADashboard_queryKey)) xs ->
    Forall (targets (hashKey useDADashboard_queryKey)) ys ->
    run zs cache = run (xs ++ ys)%list cache.
  Proof.
    intros Hil Hxs Hys. apply (run_interleaving xs ys zs _ _ cache Hil Hxs Hys).
    intros H. apply hooks_hash_ne. by rewrite H.
  Qed.

  (** ** A failed refetch *)

  (** [C24] When a refetch of [usePADashboard] fails after the data [v]
      was shown (here a refetch after invalidation, rejected four times),
      the hook shows the API error [e4] unchanged beside the old data [v]:
      status [error], [isRefetchError] and not [isLoadingError], a result
      of TanStack's [QueryObserverRefetchErrorResult] type; the API was
      called five times in all. *)
Theorem usePADashboard_refetch_error_keeps_data cache (v : A) (e1 e2 e3 e4 : E) :
    cache !! hashKey usePADashboard_queryKey = None ->
    let h := hashKey usePADashboard_queryKey in
    let retries := [EvRespond h (Rejected e1); EvRetryTimer h true; EvRespond h (Rejected e2);
                    EvRetryTimer h true; EvRespond h (Rejected e3); EvRetryTimer h true;
                    EvRespond h (Rejected e4)] in
    exists c res,
      run ([EvRespond h (Fulfilled (Some v)); EvInvalidate usePADashboard_queryKey] ++ retries)%list
        (usePADashboard cache).2 = Some c /\
      currentResult h c = Some res /\
      Result.data res = Some v /\ Result.error res = Some (ApiError e4) /\
      Result.status res = Error /\ Result.isRefetchError res = true /\
      Result.isLoadingError res = false /\ resultType res = RefetchErrorResult /\
      Query.fnCalls <$> c !! h = Some 5.
  Proof.
    intros Hnone h retries. unfold usePADashboard.
    rewrite (useQuery_fresh usePADashboard_options cache Hnone). cbn [snd].
    assert (Hinv : forall c, run [EvInvalidate (A := A) (E := E) usePADashboard_queryKey] c =
                               Some (invalidateQueries usePADashboard_queryKey c)) by reflexivity.
    rewrite run_app.
    change [EvRespond h (Fulfilled (Some v)); EvInvalidate usePADashboard_queryKey] with
      ([EvRespond h (Fulfilled (Some v))] ++ [EvInvalidate (A := A) (E := E) usePADashboard_queryKey])%list.
    rewrite run_app, run_entry by reflexivity. simpl (Query.onResponse _ _). cbn -[run]. setoid_rewrite Hinv.
    unfold invalidateQueries. rewrite fmap_insert, run_entry by reflexivity. simpl.
    eexists _, _. split; [reflexivity |]. rewrite currentResult_insert.
    split_and!; try done. by rewrite lookup_insert_eq.
  Qed.
End Hooks.

(** ** Witnesses *)

Lemma usePADashboard_registers_witness :
  (∅ : QueryCache nat string) !! hashKey ["getPatientDashboardAppointment"] = None /\
  let '(res, cache') := @usePADashboard nat string ∅ in
  Result.isLoading res = true /\ Result.data res = None /\ Result.error res = None /\
  Result.status res = Pending /\
  exists q, cache' = <[hashKey ["getPatientDashboardAppointment"] := q]> ∅ /\
    Query.queryKey q = ["getPatientDashboardAppointment"] /\
    Query.queryFn q = getPatientDashboardAppointment /\
    Query.observers q = 1 /\ Query.fnCalls q = 1.
Proof. split; [reflexivity | apply usePADashboard_registers; reflexivity]. Defined.

Lemma useDADashboard_registers_witness :
  (∅ : QueryCache nat string) !! hashKey ["DADashboard"] = None /\
  let '(res, cache') := @useDADashboard nat string ∅ in
  Result.isLoading res = true /\ Result.data res = None /\ Result.error res = None /\
  Result.status res = Pending /\
  exists q, cache' = <[hashKey ["DADashboard"] := q]> ∅ /\
    Query.queryKey q = ["DADashboard"] /\
    Query.queryFn q = getPatientDashboardAppointment /\
    Query.observers q = 1 /\ Query.fnCalls q = 1.
Proof. split; [reflexivity | apply useDADashboard_registers; reflexivity]. Defined.

Lemma hooks_independent_witness :
  exec (EvMount useDADashboard_options) (∅ : QueryCache nat string) =
    Some (snd (mount useDADashboard_options ∅)) /\
  eventTarget (A := nat) (E := string) (EvMount useDADashboard_options) =
    Some (hashKey useDADashboard_queryKey) /\
  (snd (mount useDADashboard_options (∅ : QueryCache nat string))) !! hashKey usePADashboard_queryKey =
    (∅ : QueryCache nat string) !! hashKey usePADashboard_queryKey.
Proof.
  split_and!; [reflexivity | reflexivity |].
  apply (proj1 (hooks_independent (EvMount useDADashboard_options) ∅ _ eq_refl)).
  reflexivity.
Defined.

(** The cache after one component mounted [usePADashboard], and its entry:
    fetching, one observer, one call, a running attempt. *)
Local Abbreviation cachePA := (@usePADashboard nat string ∅).2.
Local Abbreviation qPA :=
  (@Query.mk nat string usePADashboard_queryKey (hashKey usePADashboard_queryKey)
     getPatientDashboardAppointment (reducer true AFetch getDefaultState) 1
     (Some (mkRetryer 0 false Running)) 1).

Lemma cachePA_reachable : reachable cachePA.
Proof. apply (reachable_step ∅ _ (EvMount usePADashboard_options)); [constructor | reflexivity]. Qed.

Lemma usePADashboard_resolves_witness :
  exists cache' res,
    exec (EvRespond (hashKey usePADashboard_queryKey) (Fulfilled (Some 7))) cachePA = Some cache' /\
    currentResult (hashKey usePADashboard_queryKey) cache' = Some res /\
    Result.data res = Some 7 /\ Result.error res = None /\ Result.status res = Success /\
    Result.isLoading res = false /\ Result.isFetching res = false.
Proof. apply (usePADashboard_resolves cachePA qPA (mkRetryer 0 false Running) 7); reflexivity. Defined.

Lemma usePADashboard_undefined_is_error_witness :
  exists cache' res,
    exec (EvRespond (hashKey usePADashboard_queryKey) (Fulfilled None)) cachePA = Some cache' /\
    currentResult (hashKey usePADashboard_queryKey) cache' = Some res /\
    Result.error res = Some (UndefinedData (hashKey usePADashboard_queryKey)) /\
    Result.data res = data (Query.state qPA) /\ Result.status res = Error /\
    Result.isFetching res = false.
Proof.
  apply (usePADashboard_undefined_is_error cachePA qPA (mkRetryer 0 false Running));
    [exact cachePA_reachable | reflexivity ..].
Defined.

Lemma useDADashboard_rejects_after_retries_witness :
  let h := hashKey ["DADashboard"] in
  let cache1 := (@useDADashboard nat string ∅).2 in
  let evs := [EvRespond h (Rejected "e1"); EvRetryTimer h true; EvRespond h (Rejected "e2");
              EvRetryTimer h true; EvRespond h (Rejected "e3"); EvRetryTimer h true;
              EvRespond h (Rejected "e4")] in
  (exists c res, run [EvRespond h (Rejected "e1")] cache1 = Some c /\
     currentResult h c = Some res /\
     Result.error res = None /\ Result.status res = Pending /\ Result.isLoading res = true /\
     Result.failureCount res = 1 /\ Result.failureReason res = Some (ApiError "e1")) /\
  (exists c res, run evs cache1 = Some c /\ currentResult h c = Some res /\
     Result.error res = Some (ApiError "e4") /\ Result.data res = None /\
     Result.status res = Error /\ Result.isLoading res = false /\
     Result.failureCount res = 4 /\ Query.fnCalls <$> c !! h = Some 4 /\
     run (evs ++ [EvRetryTimer h true]) cache1 = None).
Proof. apply useDADashboard_rejects_after_retries. reflexivity. Defined.

Lemma usePADashboard_dedup_witness :
  exists q', (@usePADashboard nat string cachePA).2 !! hashKey usePADashboard_queryKey = Some q' /\
    Query.fnCalls q' = Query.fnCalls qPA /\ Query.state q' = Query.state qPA /\
    Query.observers q' = S (Query.observers qPA) /\
    (@usePADashboard nat string cachePA).1 = createResult qPA.
Proof.
  apply usePADashboard_dedup; [exact cachePA_reachable | reflexivity | reflexivity].
Defined.

Lemma hooks_failureCount_bound_witness :
  Result.failureCount (@usePADashboard nat string cachePA).1 <= S defaultRetry /\
  (Result.isFetching (@usePADashboard nat string cachePA).1 = true ->
   Result.failureCount (@usePADashboard nat string cachePA).1 <= defaultRetry).
Proof. apply (hooks_failureCount_bound cachePA); [exact cachePA_reachable | by left]. Defined.

Lemma reachable_wf_witness : client_wf cachePA.
Proof. apply reachable_wf. exact cachePA_reachable. Defined.


Lemma useDADashboard_unmount_cancels_retry_witness :
  let h := hashKey ["DADashboard"] in
  let cache1 := (@useDADashboard nat string ∅).2 in
  (exists c res, run [EvRespond h (Rejected "e1"); EvUnmount h; EvRetryTimer h true] cache1 = Some c /\
     currentResult h c = Some res /\
     Result.error res = Some (ApiError "e1") /\ Result.status res = Error /\
     Result.isFetching res = false /\ Query.fnCalls <$> c !! h = Some 1) /\
  (exists c, run [EvRespond h (Rejected "e1"); EvUnmount h] cache1 = Some c /\
     exists c' res, run [EvRetryTimer h true] (@useDADashboard nat string c).2 = Some c' /\
       currentResult h c' = Some res /\
       Result.error res = None /\ Result.isLoading res = true /\
       Query.fnCalls <$> c' !! h = Some 2).
Proof. apply useDADashboard_unmount_cancels_retry. reflexivity. Defined.

Lemma usePADashboard_entry_not_collected_witness :
  let h := hashKey usePADashboard_queryKey in
  exists c res, run [EvRespond h (Fulfilled (Some 7))] (@usePADashboard nat string ∅).2 = Some c /\
    currentResult h c = Some res /\
    Result.data res = Some 7 /\ Result.isFetching res = false /\
    exec (EvGcTimer h) c = Some c.
Proof. apply usePADashboard_entry_not_collected. reflexivity. Defined.

Lemma usePADashboard_gc_drops_data_witness :
  let h := hashKey usePADashboard_queryKey in
  exists c, run [EvRespond h (Fulfilled (Some 7)); EvUnmount h; EvGcTimer h]
              (@usePADashboard nat string ∅).2 = Some c /\
    c !! h = None /\
    Result.data (@usePADashboard nat string c).1 = None /\
    Result.isLoading (@usePADashboard nat string c).1 = true.
Proof. apply usePADashboard_gc_drops_data. reflexivity. Defined.

Lemma useDADashboard_invalidation_spares_PA_witness :
  invalidateQueries useDADashboard_queryKey cachePA !! hashKey usePADashboard_queryKey = Some qPA.
Proof. apply useDADashboard_invalidation_spares_PA; [exact cachePA_reachable | reflexivity]. Defined.

Lemma usePADashboard_invalidation_refetches_witness :
  let h := hashKey usePADashboard_queryKey in
  exists c res, run [EvRespond h (Fulfilled (Some 7)); EvInvalidate usePADashboard_queryKey]
                  (@usePADashboard nat string ∅).2 = Some c /\
    currentResult h c = Some res /\
    Result.isRefetching res = true /\ Result.data res = Some 7 /\
    Result.status res = Success /\ Query.fnCalls <$> c !! h = Some 2.
Proof. apply usePADashboard_invalidation_refetches. reflexivity. Defined.


Lemma hooks_result_typed_witness :
  hasType (resultType (@usePADashboard nat string cachePA).1) (@usePADashboard nat string cachePA).1 = true.
Proof. apply (hooks_result_typed cachePA); [exact cachePA_reachable | by left]. Defined.

(** Both hooks mounted, each fetch resolved with [1]. *)
Local Abbreviation cacheBoth :=
  (default ∅ (run [EvMount usePADashboard_options; EvMount useDADashboard_options;
                   EvRespond (hashKey usePADashboard_queryKey) (Fulfilled (Some 1));
                   EvRespond (hashKey useDADashboard_queryKey) (Fulfilled (Some 1))]
                  (∅ : QueryCache nat string))).
Local Abbreviation entryOf h c :=
  (default (Query.create [] EmptyString getPatientDashboardAppointment) (c !! h)).

Lemma hooks_focus_refetches_both_witness :
  exists c qPA' qDA', exec EvFocus cacheBoth = Some c /\
    c !! hashKey usePADashboard_queryKey = Some qPA' /\
    c !! hashKey useDADashboard_queryKey = Some qDA' /\
    Query.fnCalls qPA' = S (Query.fnCalls (entryOf (hashKey usePADashboard_queryKey) cacheBoth)) /\
    Query.fnCalls qDA' = S (Query.fnCalls (entryOf (hashKey useDADashboard_queryKey) cacheBoth)) /\
    Result.isFetching (createResult qPA') = true /\ Result.isFetching (createResult qDA') = true /\
    Result.data (createResult qPA') =
      data (Query.state (entryOf (hashKey usePADashboard_queryKey) cacheBoth)) /\
    Result.data (createResult qDA') =
      data (Query.state (entryOf (hashKey useDADashboard_queryKey) cacheBoth)).
Proof. apply hooks_focus_refetches_both; vm_compute; first [reflexivity | lia]. Defined.

Lemma useDADashboard_retry_waits_for_focus_witness :
  let h := hashKey ["DADashboard"] in
  let cache1 := (@useDADashboard nat string ∅).2 in
  (exists c res, run [EvRespond h (Rejected "e1"); EvRetryTimer h false] cache1 = Some c /\
     currentResult h c = Some res /\
     Result.isPaused res = true /\ Result.fetchStatus res = Paused /\
     Result.isLoading res = false /\ Result.error res = None /\
     Query.fnCalls <$> c !! h = Some 1 /\
     exists c' res', exec EvFocus c = Some c' /\ currentResult h c' = Some res' /\
       Result.isPaused res' = false /\ Result.isLoading res' = true /\
       Query.fnCalls <$> c' !! h = Some 2) /\
  (exists c res, run [EvRespond h (Rejected "e1"); EvRetryTimer h false; EvUnmount h; EvFocus]
                   cache1 = Some c /\
     currentResult h c = Some res /\
     Result.error res = Some (ApiError "e1") /\ Result.status res = Error /\
     Result.isFetching res = false /\ Result.isPaused res = false /\
     Query.fnCalls <$> c !! h = Some 1).
Proof. apply useDADashboard_retry_waits_for_focus. reflexivity. Defined.

Lemma useDADashboard_eventually_settled_witness :
  let h := hashKey useDADashboard_queryKey in
  let cache1 := (@useDADashboard nat string ∅).2 in
  exists c res, run (settleEvents (2 * defaultRetry + 2) h (fun _ => Rejected "down") cache1) cache1 = Some c /\
    currentResult h c = Some res /\
    Result.isFetching res = false /\ Result.isPaused res = false /\
    (Result.status res = Success \/ Result.status res = Error).
Proof. apply useDADashboard_eventually_settled. constructor. Defined.

Lemma hooks_entries_refine_contract_witness :
  let evs := [EvMount usePADashboard_options;
              EvRespond (hashKey usePADashboard_queryKey) (Rejected "e1");
              EvRetryTimer (hashKey usePADashboard_queryKey) true;
              EvRespond (hashKey usePADashboard_queryKey) (Fulfilled (Some 7))] in
  exists q, (default ∅ (run evs (∅ : QueryCache nat string))) !! hashKey usePADashboard_queryKey = Some q /\
  exists evs1 evs2 ls, evs = (evs1 ++ evs2)%list /\
    EntrySpec.sstar (hashKey usePADashboard_queryKey) ls EntrySpec.specInit (EntrySpec.abs q) /\
    EntrySpec.answersOf ls = answersTo (hashKey usePADashboard_queryKey) evs2 /\
    Query.fnCalls q = sum_list (EntrySpec.labelCalls <$> ls).
Proof.
  intros evs. eexists. split; [reflexivity |].
  apply (hooks_entries_refine_contract evs (default ∅ (run evs ∅))); [reflexivity | by left | reflexivity].
Defined.

Lemma hooks_show_only_own_answers_witness :
  let evs := [EvMount usePADashboard_options;
              EvRespond (hashKey usePADashboard_queryKey) (Fulfilled (Some 7))] in
  exists res, currentResult (hashKey usePADashboard_queryKey)
                (default ∅ (run evs (∅ : QueryCache nat string))) = Some res /\
  (forall v, Result.data res = Some v -> Fulfilled (Some v) ∈ answersTo (hashKey usePADashboard_queryKey) evs) /\
  (forall e, Result.error res = Some (ApiError e) -> Rejected e ∈ answersTo (hashKey usePADashboard_queryKey) evs).
Proof.
  intros evs. eexists. split; [reflexivity |].
  apply (hooks_show_only_own_answers evs (default ∅ (run evs ∅))); [reflexivity | by left | reflexivity].
Defined.

Lemma useDADashboard_calls_bound_witness :
  let h := hashKey useDADashboard_queryKey in
  let cache1 := (@useDADashboard nat string ∅).2 in
  exists c q, run (settleEvents (2 * defaultRetry + 2) h (fun _ => Rejected "down") cache1) cache1 = Some c /\
    c !! h = Some q /\ fetchStatus (Query.state q) = Idle /\
    Query.fnCalls q <= S defaultRetry.
Proof. apply useDADashboard_calls_bound; [constructor | reflexivity]. Defined.

Lemma hooks_interleavings_agree_witness :
  let hPA := hashKey usePADashboard_queryKey in
  let xs := [EvMount usePADashboard_options; EvRespond hPA (Fulfilled (Some 7))] in
  let ys := [EvMount useDADashboard_options] in
  let zs := [EvMount usePADashboard_options; EvMount useDADashboard_options;
             EvRespond hPA (Fulfilled (Some 7))] in
  run zs (∅ : QueryCache nat string) = run (xs ++ ys)%list ∅.
Proof.
  intros hPA xs ys zs. apply hooks_interleavings_agree.
  - apply il_left, il_right, il_left, il_nil.
  - repeat constructor.
  - repeat constructor.
Defined.

Lemma usePADashboard_refetch_error_keeps_data_witness :
  let h := hashKey usePADashboard_queryKey in
  let retries := [EvRespond h (Rejected "e1"); EvRetryTimer h true; EvRespond h (Rejected "e2");
                  EvRetryTimer h true; EvRespond h (Rejected "e3"); EvRetryTimer h true;
                  EvRespond h (Rejected "e4")] in
  exists c res,
    run ([EvRespond h (Fulfilled (Some 7)); EvInvalidate usePADashboard_queryKey] ++ retries)%list
      (@usePADashboard nat string ∅).2 = Some c /\
    currentResult h c = Some res /\
    Result.data res = Some 7 /\ Result.error res = Some (ApiError "e4") /\
    Result.status res = Error /\ Result.isRefetchError res = true /\
    Result.isLoadingError res = false /\ resultType res = RefetchErrorResult /\
    Query.fnCalls <$> c !! h = Some 5.
Proof. apply usePADashboard_refetch_error_keeps_data. reflexivity. Defined.
